(** * Early Shift: growth evaluation, mention correlation, candidate polling

    A shallow embedding of [mechanic_detector.py] and [roproxy_client.py]
    and the properties of the written specification that concern them.

    Conventions of the embedding:
    - a Python [str] is a list of code points; the model covers the code
      points below 256 (one [ascii] each), for which [str.lower],
      [str.isspace] and the regular-expression classes are written out;
    - DuckDB [INTEGER]/[BIGINT] values are [Z], a nullable column is an
      [option], a [DOUBLE] is an exact rational ([Q]); rounding of the
      binary floating-point format is not modelled;
    - a [TIMESTAMP] column and a [timedelta] are numbers of microseconds
      ([Z]); a Python [datetime] is the record of its fields;
    - a Python function that can raise returns a [result]; a loop that
      need not end takes a bound on its turns and returns an [option];
    - library calls whose result depends on the outside world (the clock,
      HTTP responses, the similarity score of rapidfuzz) are inputs. *)

From Stdlib Require Import ZArith QArith Qround Ascii String Bool Lia Sorted.
From stdpp Require Import base option list gmap strings.

Local Open Scope Z_scope.

(* ================================================================== *)
(** ** Python strings *)
(* ================================================================== *)

Module PyStr.

Definition str := list ascii.

(** A string literal. *)
Definition lit (s : string) : str := list_ascii_of_string s.

Definition code (c : ascii) : N := N_of_ascii c.

(** [str.lower] on one code point below 256: [A-Z] and the Latin-1
    capitals U+00C0..U+00DE (without the sign U+00D7) move up by 32. *)
Definition lower_char (c : ascii) : ascii :=
  let n := code c in
  if ((65 <=? n) && (n <=? 90))%N
     || ((192 <=? n) && (n <=? 222) && negb (n =? 215))%N
  then ascii_of_N (n + 32)
  else c.

Definition lower (s : str) : str := map lower_char s.

(** [str.isspace] on one code point below 256; the class [\s] of [re]
    is the same set. *)
Definition isspace (c : ascii) : bool :=
  let n := code c in
  (((9 <=? n) && (n <=? 13)) || ((28 <=? n) && (n <=? 32))
   || (n =? 133) || (n =? 160))%N.

Fixpoint drop_while (p : ascii -> bool) (s : str) : str :=
  match s with
  | [] => []
  | c :: s' => if p c then drop_while p s' else s
  end.

Fixpoint take_while (p : ascii -> bool) (s : str) : str :=
  match s with
  | [] => []
  | c :: s' => if p c then c :: take_while p s' else []
  end.

Definition lstrip (s : str) : str := drop_while isspace s.
Definition rstrip (s : str) : str := rev (drop_while isspace (rev s)).

(** [s.strip()] *)
Definition strip (s : str) : str := rstrip (lstrip s).

Definition ascii_eqb (a b : ascii) : bool := Ascii.eqb a b.

(** [s.startswith(p)] *)
Fixpoint startswith (p s : str) : bool :=
  match p, s with
  | [], _ => true
  | _ :: _, [] => false
  | a :: p', c :: s' => ascii_eqb a c && startswith p' s'
  end.

(** [needle in hay] *)
Fixpoint contains (needle hay : str) : bool :=
  startswith needle hay
  || match hay with
     | [] => false
     | _ :: hay' => contains needle hay'
     end.

(** [s[:n]] for [n >= 0] *)
Definition slice_to (n : nat) (s : str) : str := take n s.

(** What [needle in hay] means. *)
Definition substring (needle hay : str) : Prop :=
  exists pre post, hay = pre ++ needle ++ post.

End PyStr.

(* ================================================================== *)
(** ** Tables of the DuckDB database *)
(* ================================================================== *)

(** One record type per table, in a module named after it. A nullable
    column is an [option]; the key columns are not nullable. *)

Module Games.
(** [games(universe_id BIGINT, name TEXT, ccu INTEGER,
    timestamp TIMESTAMP, PRIMARY KEY (universe_id, timestamp))] *)
Record row := {
  universe_id : Z;
  name : option PyStr.str;
  ccu : option Z;
  timestamp : Z;
}.
End Games.

Module Metadata.
(** [game_metadata], keyed by [universe_id]. *)
Record row := {
  name : option PyStr.str;
  root_place_id : option Z;
  creator_id : option Z;
  creator_name : option PyStr.str;
  description : option PyStr.str;
  genre : option PyStr.str;
  visits : option Z;
  last_seen_ccu : option Z;
  updated_at : Z;
}.
End Metadata.

Module Videos.
(** [youtube_videos], written by the collector and only read here. *)
Record row := {
  video_id : PyStr.str;
  channel_title : option PyStr.str;
  title : option PyStr.str;
  published_at : option Z;
  view_count : option Z;
}.
End Videos.

Module Spike.
(** The dataclass [MechanicSpike], also the row of [mechanic_spikes]. *)
Record MechanicSpike := {
  universe_id : Z;
  game_name : PyStr.str;
  current_ccu : Z;
  week_ago_ccu : Z;
  growth_percent : Q;
  published_at : option Z;
  mechanic : PyStr.str;
  video_title : PyStr.str;
  video_url : PyStr.str;
  channel_title : option PyStr.str;
  detected_at : Z;
}.
End Spike.

(** The tables. [games] and [mechanic_spikes] are kept in insertion
    order; [game_metadata] has a single-column primary key and is only
    ever written with [INSERT OR REPLACE], so it is a finite map. *)
Record Database := {
  games : list Games.row;
  game_metadata : gmap Z Metadata.row;
  youtube_videos : list Videos.row;
  mechanic_spikes : list Spike.MechanicSpike;
}.

Definition MICROS_PER_HOUR : Z := 3600 * 1000000.
Definition MICROS_PER_DAY : Z := 24 * MICROS_PER_HOUR.

(* ================================================================== *)
(** ** mechanic_detector.py *)
(* ================================================================== *)

Module Detector.
Import PyStr.

Definition GROWTH_THRESHOLD : Q := 25 # 100.
Definition MENTION_LOOKBACK_HOURS : Z := 48.
Definition KEYWORD_HINTS : list str :=
  map lit ["new"; "update"; "secret"; "mechanic"; "code"; "feature";
           "quest"; "event"]%string.
Definition FUZZ_THRESHOLD : Q := 82 # 1.

(** *** [MECHANIC_REGEX] and [_extract_mechanic] *)

(** The alternatives of the non-capturing group, in the order of the
    pattern. *)
Definition TRIGGERS : list str :=
  map lit ["new"; "secret"; "update"; "introducing"; "added"; "unlock";
           "mechanic"; "feature"; "quest"; "code"]%string.

(** A literal of lower-case letters under [(?i)]: each character of the
    subject is compared after lowering. Returns what follows the
    literal. *)
Fixpoint match_literal (k s : str) : option str :=
  match k, s with
  | [], _ => Some s
  | _ :: _, [] => None
  | a :: k', c :: s' =>
      if ascii_eqb (lower_char c) a then match_literal k' s' else None
  end.

(** The alternation: the first alternative that matches here. *)
Fixpoint match_alternation (ks : list str) (s : str) : option str :=
  match ks with
  | [] => None
  | k :: ks' =>
      match match_literal k s with
      | Some rest => Some rest
      | None => match_alternation ks' s
      end
  end.

(** The class [[:\-\s]]. *)
Definition is_separator (c : ascii) : bool :=
  ascii_eqb c ":"%char || ascii_eqb c "-"%char || isspace c.

(** What [.] matches: every character but the line feed. *)
Definition is_dot (c : ascii) : bool := negb (ascii_eqb c "010"%char).

(** The whole pattern tried at the start of [s]; the result is group 1.
    The separator class and the group are both repeated greedily and
    what follows them cannot fail, so nothing is given back. *)
Definition match_here (s : str) : option str :=
  match match_alternation TRIGGERS s with
  | Some rest => Some (take_while is_dot (drop_while is_separator rest))
  | None => None
  end.

(** [MECHANIC_REGEX.search(title)]: the leftmost match; [Some g] is a
    match whose group 1 is [g]. *)
Fixpoint MECHANIC_REGEX_search (title : str) : option str :=
  match title with
  | [] => match_here []
  | _ :: title' =>
      match match_here title with
      | Some g => Some g
      | None => MECHANIC_REGEX_search title'
      end
  end.

Definition _extract_mechanic (title : str) : str :=
  match MECHANIC_REGEX_search title with
  | Some g =>
      let candidate := strip g in
      slice_to 120 candidate
  | None => slice_to 120 title
  end.

(** *** [_video_matches_game] *)

Section Matching.
(** [rapidfuzz.fuzz.partial_ratio]: a score between 0 and 100. *)
Variable partial_ratio : str -> str -> Q.

Definition _video_matches_game (game_name video_title : str) : bool :=
  let score := partial_ratio (lower game_name) (lower video_title) in
  if Qle_bool FUZZ_THRESHOLD score then true
  else
    existsb
      (fun keyword =>
         contains keyword (lower video_title)
         && contains (lower game_name) (lower video_title))
      KEYWORD_HINTS.
End Matching.

(** *** [_read_growth_candidates] *)

(** The row of rank 1 when [rows] is ordered by [timestamp]
    descending. DuckDB leaves the order among equal timestamps open; the
    model takes the first such row of the scan. The primary key of
    [games] excludes equal timestamps within one partition. *)
Fixpoint newest (rows : list Games.row) : option Games.row :=
  match rows with
  | [] => None
  | r :: rest =>
      match newest rest with
      | Some r' =>
          if Games.timestamp r <? Games.timestamp r' then Some r'
          else Some r
      | None => Some r
      end
  end.

(** [PARTITION BY universe_id] *)
Definition partition (uid : Z) (rows : list Games.row) : list Games.row :=
  filter (fun r => Games.universe_id r = uid) rows.

(** [ROW_NUMBER() OVER (PARTITION BY universe_id ORDER BY timestamp
    DESC) = 1]: one row for each universe that has rows. *)
Definition rank_one (rows : list Games.row) : list Games.row :=
  omap (fun uid => newest (partition uid rows))
       (remove_dups (map Games.universe_id rows)).

(** CTE [filtered_latest] *)
Definition filtered_latest (db : Database) : list Games.row :=
  rank_one (games db).

(** CTE [filtered_week_ago]; [now] is [current_timestamp]. *)
Definition filtered_week_ago (now : Z) (db : Database) : list Games.row :=
  rank_one
    (filter (fun r => Games.timestamp r <= now - 7 * MICROS_PER_DAY)
            (games db)).

(** A row of the final [SELECT]. *)
Record growth_row := {
  row_universe_id : Z;
  row_game_name : option str;
  row_current_ccu : option Z;
  row_week_ago_ccu : option Z;
  row_growth_rate : option Q;
  row_current_timestamp : Z;
}.

(** [NULLIF(x, 0)] *)
Definition nullif0 (x : option Z) : option Z :=
  match x with
  | Some 0 => None
  | _ => x
  end.

(** [((cur - prev) * 1.0) / NULLIF(prev, 0)]; a [NULL] operand makes
    the result [NULL]. The difference is taken in [Z]: between two
    metrics that are not negative it stays within [INTEGER]. *)
Definition sql_growth_rate (cur prev : option Z) : option Q :=
  c ← cur; p ← prev; d ← nullif0 (Some p);
  Some ((inject_Z (c - p) * 1) / inject_Z d)%Q.

(** [WHERE prev.ccu > 0]: a [NULL] comparison does not select. *)
Definition sql_positive (x : option Z) : bool :=
  match x with
  | Some v => 0 <? v
  | None => false
  end.

(** [COALESCE(meta.name, cur.name)] over the left join. *)
Definition coalesce_name (meta : option Metadata.row) (cur : Games.row)
  : option str :=
  match meta ≫= Metadata.name with
  | Some n => Some n
  | None => Games.name cur
  end.

(** The query: [cur JOIN prev ON universe_id LEFT JOIN meta WHERE
    prev.ccu > 0]. *)
Definition growth_query (now : Z) (db : Database) : list growth_row :=
  cur ← filtered_latest db;
  prev ← filter (fun p => Games.universe_id p = Games.universe_id cur)
                (filtered_week_ago now db);
  if sql_positive (Games.ccu prev) then
    [ {| row_universe_id := Games.universe_id cur;
         row_game_name :=
           coalesce_name (game_metadata db !! Games.universe_id cur) cur;
         row_current_ccu := Games.ccu cur;
         row_week_ago_ccu := Games.ccu prev;
         row_growth_rate := sql_growth_rate (Games.ccu cur) (Games.ccu prev);
         row_current_timestamp := Games.timestamp cur |} ]
  else [].

(** The dictionaries that [_read_growth_candidates] returns. *)
Record candidate := {
  universe_id : Z;
  game_name : str;
  current_ccu : Z;
  week_ago_ccu : Z;
  growth_percent : Q;
  current_timestamp : Z;
}.

Definition Qlt_bool (x y : Q) : bool := negb (Qle_bool y x).

(** [row[1] or "Unknown"] *)
Definition name_or_unknown (n : option str) : str :=
  match n with
  | Some (c :: s) => c :: s
  | _ => lit "Unknown"
  end.

(** The loop body over one fetched row: [None] is [continue]. *)
Definition candidate_of_row (growth_threshold : Q) (row : growth_row)
  : option candidate :=
  match row_growth_rate row with
  | None => None
  | Some growth_rate =>
      if Qlt_bool growth_rate growth_threshold then None
      else
        Some {| universe_id := row_universe_id row;
                game_name := name_or_unknown (row_game_name row);
                current_ccu := default 0 (row_current_ccu row);
                week_ago_ccu := default 0 (row_week_ago_ccu row);
                growth_percent := (growth_rate * 100)%Q;
                current_timestamp := row_current_timestamp row |}
  end.

Definition _read_growth_candidates
    (now : Z) (db : Database) (growth_threshold : Q) : list candidate :=
  omap (candidate_of_row growth_threshold) (growth_query now db).

(** *** [detect_mechanic_spikes] *)

(** [WHERE published_at >= since] *)
Definition _fetch_recent_videos (db : Database) (since : Z)
  : list Videos.row :=
  List.filter
    (fun v =>
       match Videos.published_at v with
       | Some p => since <=? p
       | None => false
       end)
    (youtube_videos db).

(** Appends the rows; the table is created first when it is missing. *)
Definition _persist_spikes (db : Database) (spikes : list Spike.MechanicSpike)
  : Database :=
  match spikes with
  | [] => db
  | _ =>
      {| games := games db;
         game_metadata := game_metadata db;
         youtube_videos := youtube_videos db;
         mechanic_spikes := mechanic_spikes db ++ spikes |}
  end.

Definition is_empty (s : str) : bool :=
  match s with
  | [] => true
  | _ => false
  end.

Section Detection.
Variable partial_ratio : str -> str -> Q.

(** The clock. The readings taken during one run ([current_timestamp]
    of the query, [since], [detected_at]) are one instant. *)
Variable now : Z.

(** The body of the inner loop for one candidate and one video:
    [None] is [continue]. *)
Definition spike_of (c : candidate) (video : Videos.row)
  : option Spike.MechanicSpike :=
  let title := default [] (Videos.title video) in
  if is_empty title then None
  else if negb (_video_matches_game partial_ratio (game_name c) title)
  then None
  else
    let mechanic := _extract_mechanic title in
    Some {| Spike.universe_id := universe_id c;
            Spike.game_name := game_name c;
            Spike.current_ccu := current_ccu c;
            Spike.week_ago_ccu := week_ago_ccu c;
            Spike.growth_percent := growth_percent c;
            Spike.published_at := Videos.published_at video;
            Spike.mechanic := mechanic;
            Spike.video_title := title;
            Spike.video_url :=
              lit "https://youtube.com/watch?v=" ++ Videos.video_id video;
            Spike.channel_title := Videos.channel_title video;
            Spike.detected_at := now |}.

(** The two nested loops. *)
Definition correlate (candidates : list candidate)
    (videos : list Videos.row) : list Spike.MechanicSpike :=
  c ← candidates; omap (spike_of c) videos.

Definition detect_mechanic_spikes (db : Database) (lookback_hours : Z)
    (growth_threshold : Q) (persist : bool)
  : list Spike.MechanicSpike * Database :=
  let candidates := _read_growth_candidates now db growth_threshold in
  match candidates with
  | [] => ([], db)
  | _ =>
      let since := now - lookback_hours * MICROS_PER_HOUR in
      let videos := _fetch_recent_videos db since in
      let spikes := correlate candidates videos in
      (spikes, if persist then _persist_spikes db spikes else db)
  end.
End Detection.

End Detector.

(* ================================================================== *)
(** ** Python values, exceptions *)
(* ================================================================== *)

Module Py.
Import PyStr.

(** What [json.loads] and [resp.json()] produce. *)
#[local] Set Warnings "-register-all".
Inductive value :=
| VNone
| VBool (b : bool)
| VInt (z : Z)
| VFloat (q : Q)
| VStr (s : str)
| VList (l : list value)
| VDict (d : list (str * value)).

(** The exceptions met in the modelled code; all derive from
    [Exception]. The last two are DuckDB's. *)
Inductive exn :=
| AttributeError | TypeError | ValueError | KeyError | IndexError
| JSONDecodeError | UnicodeDecodeError
| ClientError | TimeoutError
| ConversionException | ConstraintException.

Inductive result (A : Type) :=
| Ok (a : A)
| Raise (e : exn).
Arguments Ok {A} a.
Arguments Raise {A} e.

Definition bind {A B} (r : result A) (k : A -> result B) : result B :=
  match r with
  | Ok a => k a
  | Raise e => Raise e
  end.

(** The notation [x ← r; k] reads as a sequence of statements of
    which any may raise. *)
#[export] Instance result_bind : MBind result :=
  fun A B k r => bind r k.
#[export] Instance result_ret : MRet result := fun A a => Ok a.
#[export] Instance result_fmap : FMap result :=
  fun A B f r => bind r (fun a => Ok (f a)).

Fixpoint map_result {A B} (f : A -> result B) (l : list A)
  : result (list B) :=
  match l with
  | [] => Ok []
  | a :: l' =>
      b ← f a; bs ← map_result f l'; Ok (b :: bs)
  end.

(** [bool(v)] *)
Definition truthy (v : value) : bool :=
  match v with
  | VNone => false
  | VBool b => b
  | VInt z => negb (z =? 0)
  | VFloat q => negb (Qeq_bool q 0)
  | VStr s => negb (Detector.is_empty s)
  | VList l => match l with [] => false | _ => true end
  | VDict d => match d with [] => false | _ => true end
  end.

Fixpoint str_eqb (a b : str) : bool :=
  match a, b with
  | [], [] => true
  | x :: a', y :: b' => ascii_eqb x y && str_eqb a' b'
  | _, _ => false
  end.

(** The binding of a key in a dictionary: keys are unique in a dict,
    the first binding stands for it. *)
Fixpoint lookup_key (k : str) (d : list (str * value)) : option value :=
  match d with
  | [] => None
  | (k', v) :: d' => if str_eqb k k' then Some v else lookup_key k d'
  end.

(** [v.get(k, dflt)]; only a dict has the method. *)
Definition get_default (v : value) (k : string) (dflt : value)
  : result value :=
  match v with
  | VDict d => Ok (default dflt (lookup_key (lit k) d))
  | _ => Raise AttributeError
  end.

(** [v.get(k)] *)
Definition get (v : value) (k : string) : result value :=
  get_default v k VNone.

(** [a or b] with [b] evaluated only when needed. *)
Definition or_else (a : value) (b : result value) : result value :=
  if truthy a then Ok a else b.

(** [for x in v]: the elements of a list, the characters of a string,
    the keys of a dict. *)
Definition iterate (v : value) : result (list value) :=
  match v with
  | VList l => Ok l
  | VStr s => Ok (map (fun c => VStr [c]) s)
  | VDict d => Ok (map (fun kv => VStr (fst kv)) d)
  | _ => Raise TypeError
  end.

(** [v[0]]; the keys of a decoded JSON object are strings, so a dict
    has no key [0]. *)
Definition index0 (v : value) : result value :=
  match v with
  | VList (x :: _) => Ok x
  | VList [] => Raise IndexError
  | VStr (c :: _) => Ok (VStr [c])
  | VStr [] => Raise IndexError
  | VDict _ => Raise KeyError
  | _ => Raise TypeError
  end.

Definition digit_val (c : ascii) : option Z :=
  let n := code c in
  if ((48 <=? n) && (n <=? 57))%N then Some (Z.of_N n - 48) else None.

(** Decimal digits, single underscores allowed between digits. *)
Fixpoint int_digits (acc : Z) (after_digit : bool) (s : str) : option Z :=
  match s with
  | [] => if after_digit then Some acc else None
  | c :: s' =>
      match digit_val c with
      | Some d => int_digits (acc * 10 + d) true s'
      | None =>
          if ascii_eqb c "_"%char && after_digit
          then int_digits acc false s'
          else None
      end
  end.

(** [int(s)] for a string: surrounding white space, a sign, digits. *)
Definition int_of_str (s : str) : option Z :=
  match strip s with
  | "-"%char :: ds => Z.opp <$> int_digits 0 false ds
  | "+"%char :: ds => int_digits 0 false ds
  | ds => int_digits 0 false ds
  end.

(** [int(v)]: a float is truncated towards zero. *)
Definition int (v : value) : result Z :=
  match v with
  | VInt z => Ok z
  | VBool b => Ok (if b then 1 else 0)
  | VFloat q => Ok (Z.quot (Qnum q) (Z.pos (Qden q)))
  | VStr s =>
      match int_of_str s with
      | Some z => Ok z
      | None => Raise ValueError
      end
  | _ => Raise TypeError
  end.

(** [l[:n]] for any integer [n]: a negative [n] counts from the end. *)
Definition slice_upto {A} (n : Z) (l : list A) : list A :=
  if 0 <=? n then take (Z.to_nat n) l
  else take (length l - Z.to_nat (- n)) l.

(** [list(dict.fromkeys(l))]: the first occurrence of each element, in
    order. *)
Fixpoint unique (l : list Z) : list Z :=
  match l with
  | [] => []
  | x :: l' => x :: filter (fun y => y <> x) (unique l')
  end.

End Py.

(* ================================================================== *)
(** ** datetime *)
(* ================================================================== *)

Module Datetime.
Import PyStr Py.

(** A [datetime] without [tzinfo], as [datetime.utcnow()] returns. *)
Record naive := {
  year : Z;
  month : Z;
  day : Z;
  hour : Z;
  minute : Z;
  second : Z;
  microsecond : Z;
}.

(** What [fromisoformat] may return: with or without a UTC offset
    (in microseconds). *)
Inductive datetime :=
| Naive (n : naive)
| Aware (n : naive) (utcoffset : Z).

Definition is_leap (y : Z) : bool :=
  (y mod 4 =? 0) && (negb (y mod 100 =? 0) || (y mod 400 =? 0)).

Definition days_in_month (y m : Z) : Z :=
  if m =? 2 then (if is_leap y then 29 else 28)
  else if (m =? 4) || (m =? 6) || (m =? 9) || (m =? 11) then 30
  else 31.

Definition valid (n : naive) : bool :=
  (1 <=? year n) && (year n <=? 9999)
  && (1 <=? month n) && (month n <=? 12)
  && (1 <=? day n) && (day n <=? days_in_month (year n) (month n))
  && (0 <=? hour n) && (hour n <? 24)
  && (0 <=? minute n) && (minute n <? 60)
  && (0 <=? second n) && (second n <? 60)
  && (0 <=? microsecond n) && (microsecond n <? 1000000).

(** Days since 1970-01-01 in the proleptic Gregorian calendar. *)
Definition days_from_civil (y m d : Z) : Z :=
  let y' := if m <=? 2 then y - 1 else y in
  let era := y' / 400 in
  let yoe := y' - era * 400 in
  let doy := (153 * (if 2 <? m then m - 3 else m + 9) + 2) / 5 + d - 1 in
  let doe := yoe * 365 + yoe / 4 - yoe / 100 + doy in
  era * 146097 + doe - 719468.

(** The instant as microseconds since 1970-01-01T00:00:00. *)
Definition micros (n : naive) : Z :=
  days_from_civil (year n) (month n) (day n) * MICROS_PER_DAY
  + hour n * MICROS_PER_HOUR + minute n * 60000000
  + second n * 1000000 + microsecond n.

(** [timedelta(hours=h)] *)
Definition timedelta_hours (h : Z) : Z := h * MICROS_PER_HOUR.

(** [a - b]: a [timedelta]; mixing a naive and an aware operand is a
    [TypeError]. *)
Definition sub (a : naive) (b : datetime) : result Z :=
  match b with
  | Naive n => Ok (micros a - micros n)
  | Aware _ _ => Raise TypeError
  end.

(** The last [width] decimal digits of [z], most significant first. *)
Fixpoint pad (width : nat) (z : Z) : str :=
  match width with
  | O => []
  | S w => pad w (z / 10) ++ [ascii_of_N (Z.to_N (z mod 10) + 48)]
  end.

(** [n.isoformat()] *)
Definition isoformat (n : naive) : str :=
  pad 4 (year n) ++ lit "-" ++ pad 2 (month n) ++ lit "-" ++ pad 2 (day n)
  ++ lit "T" ++ pad 2 (hour n) ++ lit ":" ++ pad 2 (minute n)
  ++ lit ":" ++ pad 2 (second n)
  ++ (if microsecond n =? 0 then [] else lit "." ++ pad 6 (microsecond n)).

(** Exactly [width] decimal digits. *)
Fixpoint digits (width : nat) (acc : Z) (s : str) : option (Z * str) :=
  match width with
  | O => Some (acc, s)
  | S w =>
      match s with
      | c :: s' =>
          match digit_val c with
          | Some d => digits w (acc * 10 + d) s'
          | None => None
          end
      | [] => None
      end
  end.

(** One given character. *)
Definition expect (c : ascii) (s : str) : option str :=
  match s with
  | c' :: s' => if ascii_eqb c c' then Some s' else None
  | [] => None
  end.

(** [.fff] or [.ffffff], as microseconds. *)
Definition fraction (s : str) : option (Z * str) :=
  match digits 6 0 s with
  | Some r => Some r
  | None => '(ms, s') ← digits 3 0 s; Some (ms * 1000, s')
  end.

(** [HH[:MM[:SS[.fff[fff]]]]]: hour, minute, second, microsecond and
    what follows. *)
Definition clock_fields (s : str) : option (Z * Z * Z * Z * str) :=
  '(h, s1) ← digits 2 0 s;
  match expect ":" s1 with
  | None => Some (h, 0, 0, 0, s1)
  | Some s2 =>
      '(mi, s3) ← digits 2 0 s2;
      match expect ":" s3 with
      | None => Some (h, mi, 0, 0, s3)
      | Some s4 =>
          '(sec, s5) ← digits 2 0 s4;
          match expect "." s5 with
          | None => Some (h, mi, sec, 0, s5)
          | Some s6 => '(us, s7) ← fraction s6; Some (h, mi, sec, us, s7)
          end
      end
  end.

(** [+HH:MM[:SS[.ffffff]]] up to the end of the string, as
    microseconds; the offset is below one day. *)
Definition offset (s : str) : option Z :=
  '(sign, s0) ←
    match s with
    | "+"%char :: s' => Some (1, s')
    | "-"%char :: s' => Some (-1, s')
    | _ => None
    end;
  '(h, s1) ← digits 2 0 s0;
  s2 ← expect ":" s1;
  '(mi, s3) ← digits 2 0 s2;
  '(sec, us, rest) ←
    match expect ":" s3 with
    | None => Some (0, 0, s3)
    | Some s4 =>
        '(sec, s5) ← digits 2 0 s4;
        match expect "." s5 with
        | None => Some (sec, 0, s5)
        | Some s6 => '(us, s7) ← digits 6 0 s6; Some (sec, us, s7)
        end
    end;
  if Detector.is_empty rest && (h <? 24) && (mi <? 60) && (sec <? 60)
  then Some (sign * (h * MICROS_PER_HOUR + mi * 60000000
                     + sec * 1000000 + us))
  else None.

(** The strings of the documented format
    [YYYY-MM-DD[*HH[:MM[:SS[.fff[fff]]]][+HH:MM[:SS[.ffffff]]]]], which
    every version of [datetime.fromisoformat] reads and which
    [isoformat] writes. Other strings give [None] here. *)
Definition parse_isoformat (s : str) : option datetime :=
  '(y, s1) ← digits 4 0 s;
  s2 ← expect "-" s1;
  '(m, s3) ← digits 2 0 s2;
  s4 ← expect "-" s3;
  '(d, s5) ← digits 2 0 s4;
  '(h, mi, sec, us, tz) ←
    match s5 with
    | [] => Some (0, 0, 0, 0, [])
    | _ :: s6 => clock_fields s6
    end;
  let n := {| year := y; month := m; day := d; hour := h; minute := mi;
              second := sec; microsecond := us |} in
  if valid n then
    match tz with
    | [] => Some (Naive n)
    | _ => Aware n <$> offset tz
    end
  else None.

(** [datetime.fromisoformat(v)]: a [TypeError] for an argument that is
    not a string, a [ValueError] for a string that does not parse. *)
Definition fromisoformat (v : value) : result datetime :=
  match v with
  | VStr s =>
      match parse_isoformat s with
      | Some dt => Ok dt
      | None => Raise ValueError
      end
  | _ => Raise TypeError
  end.

End Datetime.

(* ================================================================== *)
(** ** roproxy_client.py *)
(* ================================================================== *)

Module Client.
Import PyStr Py Datetime.

Definition FALLBACK_UNIVERSES : list Z :=
  [ 994732206; 245662005; 383310974; 47545; 210851291; 4924922222;
    185655149; 10977891899; 5902977743; 8737602446; 1537690962;
    1182249705; 142823291; 1400147734; 920587237; 8149070699; 3351674303;
    5569431581; 6381829480; 4872321990; 4520749081; 13822889; 9498006165;
    488667523; 286090429; 3823781113; 447452406; 2010620636; 2013640567;
    3291301470; 511316432; 2216618303; 3145447021; 5926001758; 3192707582;
    275420544; 263761432; 92012076; 1377239466; 6284583030; 2988862959;
    2583109575; 1540764883; 5763726676; 3019923553; 5938036553 ].

Definition POPULAR_ENDPOINTS : list str :=
  map lit [ "https://games.roproxy.com/v1/discovery/universes";
            "https://games.roblox.com/v1/discovery/universes" ]%string.

Definition DEFAULT_CACHE_HOURS : Z := 4.
Definition DEFAULT_CONCURRENCY : Z := 12.

(** The dataclass [UniverseSnapshot]. The annotations of its fields are
    not enforced: a field holds whatever the payload held. *)
Record UniverseSnapshot := {
  universe_id : Z;
  name : value;
  ccu : value;
  root_place_id : value;
  description : value;
  creator_id : value;
  creator_name : value;
  genre : value;
  visits : value;
}.

(** The answer to one [session.get]: the request raises (connection
    error, timeout), or a response arrives whose [json()] gives a value
    or raises. *)
Inductive http_result :=
| Failed (e : exn)
| Response (status : Z) (json : result value).

(** *** The cache file *)

(** The file at [cache_path], as [_load_cached_universes] meets it:
    absent, bytes that [read_text] cannot decode, text that
    [json.loads] rejects, or text that it decodes to a value. *)
Inductive cache_file :=
| Missing
| Undecodable
| Unparsable
| Parsed (cached : value).

Section Resolver.
(** [self.cache_ttl] *)
Variable cache_ttl : Z.

(** [now] is the reading of [datetime.utcnow()]. [Ok None] is the
    return value [None]. *)
Definition _load_cached_universes (now : naive) (file : cache_file)
  : result (option (list Z)) :=
  match file with
  | Missing => Ok None
  | Undecodable => Raise UnicodeDecodeError
  | Unparsable => Ok None
  | Parsed cached =>
      timestamp ← get cached "generated_at";
      if negb (truthy timestamp) then Ok None
      else
        generated_at ← fromisoformat timestamp;
        age ← sub now generated_at;
        if cache_ttl <? age then Ok None
        else
          ids ← get_default cached "universe_ids" (VList []);
          items ← iterate ids;
          uids ← map_result int items;
          Ok (Some uids)
  end.

Definition _save_cached_universes (now : naive) (universe_ids : list Z)
  : cache_file :=
  Parsed
    (VDict [ (lit "generated_at", VStr (isoformat now));
             (lit "universe_ids", VList (map VInt (unique universe_ids))) ]).

(** *** Discovery *)

(** [discovery url n] is the answer to the [n]-th request sent to the
    endpoint [url] during one call. *)
Variable discovery : str -> nat -> http_result.

(** The [for entry in data] loop. The list of identifiers grows in
    place, so what was appended before an exception stays. The
    boolean tells whether the loop raised. *)
Fixpoint collect_entries (limit : Z) (universe_ids : list Z)
    (entries : list value) : list Z * bool :=
  match entries with
  | [] => (universe_ids, false)
  | entry :: rest =>
      let parsed :=
        a ← get entry "id";
        universe_id ← or_else a (get entry "universeId");
        if negb (truthy universe_id) then Ok None
        else Some <$> int universe_id in
      match parsed with
      | Raise _ => (universe_ids, true)
      | Ok None => collect_entries limit universe_ids rest
      | Ok (Some uid) =>
          if bool_decide (uid ∈ universe_ids)
          then collect_entries limit universe_ids rest
          else
            let universe_ids' := universe_ids ++ [uid] in
            if limit <=? Z.of_nat (length universe_ids')
            then (universe_ids', false)
            else collect_entries limit universe_ids' rest
      end
  end.

(** One turn of the [while] loop, given the answer to its request.
    The boolean tells whether the loop goes on: it ends on a [break]
    and on an exception alike. *)
Definition page (limit : Z) (universe_ids : list Z) (r : http_result)
  : list Z * bool :=
  match r with
  | Failed _ => (universe_ids, false)
  | Response status json =>
      if negb (status =? 200) then (universe_ids, false)
      else
        let entries :=
          payload ← json;
          a ← get payload "data";
          data ← or_else a (get payload "universes");
          if negb (truthy data) then Ok None
          else
            items ← iterate data;
            cursor_a ← get payload "nextPageCursor";
            cursor ← or_else cursor_a (get payload "nextPageToken");
            Ok (Some (items, truthy cursor)) in
        match entries with
        | Raise _ | Ok None => (universe_ids, false)
        | Ok (Some (items, more)) =>
            let '(universe_ids', raised) :=
              collect_entries limit universe_ids items in
            (universe_ids', negb raised && more)
        end
  end.

(** The [while len(universe_ids) < limit] loop on one endpoint, from
    its [n]-th request on. [None]: the loop has not ended within
    [fuel] turns. *)
Fixpoint paginate (fuel : nat) (url : str) (n : nat) (limit : Z)
    (universe_ids : list Z) : option (list Z) :=
  if limit <=? Z.of_nat (length universe_ids) then Some universe_ids
  else
    match fuel with
    | O => None
    | S fuel' =>
        match page limit universe_ids (discovery url n) with
        | (universe_ids', false) => Some universe_ids'
        | (universe_ids', true) =>
            paginate fuel' url (S n) limit universe_ids'
        end
    end.

(** The [for endpoint in POPULAR_ENDPOINTS] loop. *)
Fixpoint try_endpoints (fuel : nat) (urls : list str) (limit : Z)
    (universe_ids : list Z) : option (list Z) :=
  match urls with
  | [] => Some universe_ids
  | url :: urls' =>
      universe_ids' ← paginate fuel url 0 limit universe_ids;
      match universe_ids' with
      | [] => try_endpoints fuel urls' limit universe_ids'
      | _ => Some universe_ids'
      end
  end.

Definition _fetch_top_universes (fuel : nat) (limit : Z)
  : option (list Z) :=
  try_endpoints fuel POPULAR_ENDPOINTS limit [].

(** [now] is the clock when the cache is read, [later] when it is
    written. The result is what the caller receives together with
    the cache file left behind; [None]: discovery has not ended
    within [fuel] turns. *)
Definition get_top_universe_ids (fuel : nat) (now later : naive)
    (file : cache_file) (limit : Z)
  : option (result (list Z) * cache_file) :=
  match _load_cached_universes now file with
  | Raise e => Some (Raise e, file)
  | Ok (Some (uid :: cached)) =>
      Some (Ok (slice_upto limit (uid :: cached)), file)
  | Ok _ =>
      universe_ids ← _fetch_top_universes fuel limit;
      match universe_ids with
      | _ :: _ =>
          Some (Ok universe_ids, _save_cached_universes later universe_ids)
      | [] =>
          Some (Ok (slice_upto limit FALLBACK_UNIVERSES),
                _save_cached_universes later FALLBACK_UNIVERSES)
      end
  end.
End Resolver.

(** *** [_fetch_universe_snapshot] *)

(** The snapshot returned after the [try] statement. *)
Definition zero_snapshot (universe_id : Z) : UniverseSnapshot :=
  {| universe_id := universe_id;
     name := VStr (lit "Unknown");
     ccu := VInt 0;
     root_place_id := VNone;
     description := VNone;
     creator_id := VNone;
     creator_name := VNone;
     genre := VNone;
     visits := VNone |}.

(** The body of the [try] statement: [Ok (Some s)] returns [s],
    [Ok None] leaves the body without returning. *)
Definition try_fetch (r : http_result) (universe_id : Z)
  : result (option UniverseSnapshot) :=
  match r with
  | Failed e => Raise e
  | Response status json =>
      if status =? 200 then
        payload ← json;
        data ← get payload "data";
        if truthy data then
          game ← index0 data;
          c ← get game "creator";
          creator ← or_else c (Ok (VDict []));
          name ← get_default game "name" (VStr (lit "Unknown"));
          ccu ← get_default game "playing" (VInt 0);
          root_place_id ← get game "rootPlaceId";
          description ← get game "description";
          creator_id ← get creator "id";
          creator_name ← get creator "name";
          genre ← get game "genre";
          visits ← get game "visits";
          Ok (Some {| universe_id := universe_id;
                      name := name;
                      ccu := ccu;
                      root_place_id := root_place_id;
                      description := description;
                      creator_id := creator_id;
                      creator_name := creator_name;
                      genre := genre;
                      visits := visits |})
        else Ok None
      else Ok None
  end.

(** [except Exception] catches every exception of the body. *)
Definition _fetch_universe_snapshot (r : http_result) (universe_id : Z)
  : result UniverseSnapshot :=
  match try_fetch r universe_id with
  | Ok (Some snapshot) => Ok snapshot
  | Ok None | Raise _ => Ok (zero_snapshot universe_id)
  end.

(** *** The connection and its statements *)

(** A DuckDB connection: the committed database and, while a
    transaction is open, its working copy. Without [BEGIN] every
    statement is its own transaction, committed when it ends. *)
Record Connection := {
  committed : Database;
  transaction : option Database;
}.

(** [db.begin()]. The modelled code never calls it; a second [begin]
    inside a transaction, an error in DuckDB, leaves the connection as
    it is here. *)
Definition begin (c : Connection) : Connection :=
  match transaction c with
  | Some _ => c
  | None => {| committed := committed c; transaction := Some (committed c) |}
  end.


(** A statement that maps the database to a new one, or raises and
    leaves it as it was. *)
Definition run (f : Database -> result Database) (c : Connection)
  : result Connection :=
  match transaction c with
  | Some work =>
      work' ← f work;
      Ok {| committed := committed c; transaction := Some work' |}
  | None =>
      db ← f (committed c);
      Ok {| committed := db; transaction := None |}
  end.

(** What a reader sees, and what is left when the process ends. *)
Definition persisted (c : Connection) : Database := committed c.

(** A Python argument bound to a column of an integer type with the
    given range. The model accepts [None] and integers; DuckDB's casts
    from other types are not modelled and raise here. *)
Definition to_integer (bits : Z) (v : value) : result (option Z) :=
  match v with
  | VNone => Ok None
  | VInt z =>
      if (- 2 ^ (bits - 1) <=? z) && (z <? 2 ^ (bits - 1)) then Ok (Some z)
      else Raise ConversionException
  | VBool b => Ok (Some (if b then 1 else 0))
  | _ => Raise ConversionException
  end.

(** A Python argument bound to a [TEXT] column, likewise. *)
Definition to_text (v : value) : result (option str) :=
  match v with
  | VNone => Ok None
  | VStr s => Ok (Some s)
  | _ => Raise ConversionException
  end.

Inductive statement :=
| UpsertMetadata (snapshot : UniverseSnapshot) (updated_at : Z)
| DeleteGame (universe_id timestamp : Z)
| InsertGame (universe_id : Z) (name ccu : value) (timestamp : Z).

Definition same_key (universe_id timestamp : Z) (r : Games.row) : bool :=
  (Games.universe_id r =? universe_id) && (Games.timestamp r =? timestamp).

Definition with_games (db : Database) (g : list Games.row) : Database :=
  {| games := g;
     game_metadata := game_metadata db;
     youtube_videos := youtube_videos db;
     mechanic_spikes := mechanic_spikes db |}.

Definition with_metadata (db : Database) (m : gmap Z Metadata.row)
  : Database :=
  {| games := games db;
     game_metadata := m;
     youtube_videos := youtube_videos db;
     mechanic_spikes := mechanic_spikes db |}.

Definition apply (st : statement) (db : Database) : result Database :=
  match st with
  | UpsertMetadata snapshot updated_at =>
      uid ← to_integer 64 (VInt (universe_id snapshot));
      name ← to_text (name snapshot);
      root_place_id ← to_integer 64 (root_place_id snapshot);
      creator_id ← to_integer 64 (creator_id snapshot);
      creator_name ← to_text (creator_name snapshot);
      description ← to_text (description snapshot);
      genre ← to_text (genre snapshot);
      visits ← to_integer 64 (visits snapshot);
      last_seen_ccu ← to_integer 32 (ccu snapshot);
      Ok (with_metadata db
            (<[ universe_id snapshot :=
                {| Metadata.name := name;
                   Metadata.root_place_id := root_place_id;
                   Metadata.creator_id := creator_id;
                   Metadata.creator_name := creator_name;
                   Metadata.description := description;
                   Metadata.genre := genre;
                   Metadata.visits := visits;
                   Metadata.last_seen_ccu := last_seen_ccu;
                   Metadata.updated_at := updated_at |} ]>
               (game_metadata db)))
  | DeleteGame uid timestamp =>
      _ ← to_integer 64 (VInt uid);
      Ok (with_games db
            (List.filter (fun r => negb (same_key uid timestamp r))
                         (games db)))
  | InsertGame uid name ccu timestamp =>
      _ ← to_integer 64 (VInt uid);
      name ← to_text name;
      ccu ← to_integer 32 ccu;
      if existsb (same_key uid timestamp) (games db)
      then Raise ConstraintException
      else
        Ok (with_games db
              (games db ++ [ {| Games.universe_id := uid;
                                Games.name := name;
                                Games.ccu := ccu;
                                Games.timestamp := timestamp |} ]))
  end.

(** [db.execute(...)] *)
Definition execute (c : Connection) (st : statement) : result Connection :=
  run (apply st) c.

(** Statements in sequence; the first exception ends the sequence and
    is returned with the connection as it is then. *)
Fixpoint execute_all (c : Connection) (sts : list statement)
  : Connection * option exn :=
  match sts with
  | [] => (c, None)
  | st :: rest =>
      match execute c st with
      | Ok c' => execute_all c' rest
      | Raise e => (c, Some e)
      end
  end.

(** *** [poll_top_games] *)

Section Poll.
(** The answer to the request for one universe. *)
Variable fetch : Z -> http_result.

(** [timestamp] of the batch, read once. *)
Variable timestamp : Z.

(** The clock read by the [i]-th call of [_upsert_metadata]. *)
Variable utcnow : nat -> Z.

(** The statements of one turn of the [for snapshot in snapshots]
    loop. *)
Definition snapshot_statements (i : nat) (snapshot : UniverseSnapshot)
  : list statement :=
  [ UpsertMetadata snapshot (utcnow i);
    DeleteGame (universe_id snapshot) timestamp;
    InsertGame (universe_id snapshot) (name snapshot) (ccu snapshot)
               timestamp ].

Fixpoint batch_statements (i : nat) (snapshots : list UniverseSnapshot)
  : list statement :=
  match snapshots with
  | [] => []
  | snapshot :: rest =>
      snapshot_statements i snapshot ++ batch_statements (S i) rest
  end.

(** [asyncio.gather] over the fetches: the results in the order of
    the identifiers. *)
Definition gather (unique_ids : list Z) : result (list UniverseSnapshot) :=
  map_result (fun uid => _fetch_universe_snapshot (fetch uid) uid)
             unique_ids.


End Poll.

End Client.

(* ================================================================== *)
(** ** Vocabulary of the specification *)
(* ================================================================== *)

Module Spec.
Import PyStr Py Datetime Detector Client.


(** [g] is the text captured after a trigger keyword that starts at
    offset [length pre]: the keyword, then the longest run of
    separators, then [g], which runs to the end of the line. *)
Definition captured_at (title pre g : str) : Prop :=
  exists kw seps rest,
    title = pre ++ kw ++ seps ++ g ++ rest
    /\ lower kw ∈ TRIGGERS
    /\ forallb is_separator seps = true
    /\ (forall c, head (g ++ rest) = Some c -> is_separator c = false)
    /\ forallb is_dot g = true
    /\ (forall c, head rest = Some c -> is_dot c = false).

(** No trigger keyword occurs at an offset before [length pre]. *)
Definition leftmost (title pre : str) : Prop :=
  forall k p q,
    k ∈ TRIGGERS -> lower title = p ++ k ++ q -> (length pre <= length p)%nat.


(** A mention whose title is null or the empty string. *)
Definition untitled (video : Videos.row) : Prop :=
  Videos.title video = None \/ Videos.title video = Some [].

Definition with_videos (db : Database) (videos : list Videos.row)
  : Database :=
  {| games := games db;
     game_metadata := game_metadata db;
     youtube_videos := videos;
     mechanic_spikes := mechanic_spikes db |}.

(** The primary key of [games]. *)
Definition key_unique (rows : list Games.row) : Prop :=
  forall r r',
    r ∈ rows -> r' ∈ rows ->
    Games.universe_id r = Games.universe_id r' ->
    Games.timestamp r = Games.timestamp r' ->
    r = r'.


Definition week_old (now : Z) (r : Games.row) : Prop :=
  Games.timestamp r <= now - 7 * MICROS_PER_DAY.

(** The most recent snapshot of a universe among those at least seven
    days old. *)
Definition is_baseline (now : Z) (db : Database) (uid : Z) (r : Games.row)
  : Prop :=
  r ∈ games db
  /\ Games.universe_id r = uid
  /\ week_old now r
  /\ forall r', r' ∈ games db -> Games.universe_id r' = uid ->
                week_old now r' ->
                Games.timestamp r' <= Games.timestamp r.

(** The universe appears in the output of the evaluator. *)
Definition has_candidate (out : list candidate) (uid : Z) : Prop :=
  exists cand, cand ∈ out /\ Detector.universe_id cand = uid.

(** A failed metric fetch: the request raises, the status is not 200,
    the body is no JSON, or the payload has no [data] or an empty
    one. *)
Definition fetch_failed (r : http_result) : Prop :=
  match r with
  | Failed _ => True
  | Response status json =>
      status <> 200
      \/ match json with
         | Raise _ => True
         | Ok payload =>
             match get payload "data" with
             | Ok data => truthy data = false
             | Raise _ => True
             end
         end
  end.


(** What the resolver does once the cache has missed. *)
Definition resolve_without_cache
    (discovery : str -> nat -> http_result) (fuel : nat) (later : naive)
    (limit : Z) : option (result (list Z) * cache_file) :=
  universe_ids ← _fetch_top_universes discovery fuel limit;
  match universe_ids with
  | _ :: _ =>
      Some (Ok universe_ids, _save_cached_universes later universe_ids)
  | [] =>
      Some (Ok (slice_upto limit FALLBACK_UNIVERSES),
            _save_cached_universes later FALLBACK_UNIVERSES)
  end.




End Spec.

(* ================================================================== *)
(** ** Example data *)
(* ================================================================== *)

Module Examples.
Import PyStr Py Datetime Detector Client.

Definition WEEK : Z := 7 * MICROS_PER_DAY.

(** The instant of the examples: 2024-01-15T00:00:00. *)
Definition today : Z := 19737 * MICROS_PER_DAY.

(** The rows of the repository's test fixture: a universe that went
    from 5000 to 10000 within a week, and one that went from 5000 to
    5100. *)
Definition test_game_now : Games.row :=
  {| Games.universe_id := 123; Games.name := Some (lit "Test Game");
     Games.ccu := Some 10000; Games.timestamp := today |}.
Definition test_game_before : Games.row :=
  {| Games.universe_id := 123; Games.name := Some (lit "Test Game");
     Games.ccu := Some 5000; Games.timestamp := today - WEEK |}.
Definition slow_game_now : Games.row :=
  {| Games.universe_id := 456; Games.name := Some (lit "Slow Game");
     Games.ccu := Some 5100; Games.timestamp := today |}.
Definition slow_game_before : Games.row :=
  {| Games.universe_id := 456; Games.name := Some (lit "Slow Game");
     Games.ccu := Some 5000; Games.timestamp := today - WEEK |}.

(** A universe whose baseline is zero and one that has no baseline. *)
Definition dead_game_now : Games.row :=
  {| Games.universe_id := 789; Games.name := Some (lit "Dead Game");
     Games.ccu := Some 900; Games.timestamp := today |}.
Definition dead_game_before : Games.row :=
  {| Games.universe_id := 789; Games.name := Some (lit "Dead Game");
     Games.ccu := Some 0; Games.timestamp := today - WEEK |}.
Definition fresh_game_now : Games.row :=
  {| Games.universe_id := 321; Games.name := Some (lit "Fresh Game");
     Games.ccu := Some 70000; Games.timestamp := today |}.

Definition test_video : Videos.row :=
  {| Videos.video_id := lit "vid1";
     Videos.channel_title := Some (lit "TestChannel");
     Videos.title := Some (lit "NEW Test Game Mechanic Update!");
     Videos.published_at := Some today;
     Videos.view_count := Some 50000 |}.

Definition untitled_video : Videos.row :=
  {| Videos.video_id := lit "vid0";
     Videos.channel_title := Some (lit "TestChannel");
     Videos.title := Some [];
     Videos.published_at := Some today;
     Videos.view_count := None |}.

Definition test_db : Database :=
  {| games := [ test_game_now; test_game_before; slow_game_now;
                slow_game_before; dead_game_now; dead_game_before;
                fresh_game_now ];
     game_metadata := ∅;
     youtube_videos := [ test_video ];
     mechanic_spikes := [] |}.

(** A similarity score that never reaches the threshold, so that only
    the keyword rule can match. *)
Definition no_similarity (a b : str) : Q := 0.


(** A cache file written at midnight, read four hours later. *)
Definition midnight_cache : cache_file :=
  Parsed (VDict [ (lit "generated_at", VStr (lit "2024-01-15T00:00:00"));
                  (lit "universe_ids", VList [VInt 7; VInt 8]) ]).
Definition midnight : naive :=
  {| year := 2024; month := 1; day := 15; hour := 0; minute := 0;
     second := 0; microsecond := 0 |}.
Definition four_o_clock : naive :=
  {| year := 2024; month := 1; day := 15; hour := 4; minute := 0;
     second := 0; microsecond := 0 |}.
Definition one_o_clock : naive :=
  {| year := 2024; month := 1; day := 15; hour := 1; minute := 0;
     second := 0; microsecond := 0 |}.

(** Discovery endpoints that are all unreachable. *)
Definition unreachable (url : str) (n : nat) : http_result :=
  Failed ClientError.

(** Metric fetches: universe 2 is answered with status 503, the others
    with an empty [data]. *)
Definition failing_fetch (uid : Z) : http_result :=
  if uid =? 2 then Response 503 (Raise ValueError)
  else Response 200 (Ok (VDict [ (lit "data", VList []) ])).






End Examples.

(* ================================================================== *)
(** ** Further example data *)
(* ================================================================== *)

Module Scenarios.
Import PyStr Py Datetime Detector Client Examples.

(** A discovery page that names universe 5 twice, has a malformed
    entry, and announces a further page. *)
Definition crowded_page : http_result :=
  Response 200
    (Ok (VDict [ (lit "data",
                  VList [ VDict [ (lit "id", VInt 5) ];
                          VDict [ (lit "universeId", VStr (lit "7")) ];
                          VDict [ (lit "id", VInt 5) ];
                          VDict [ (lit "name", VStr (lit "no id")) ];
                          VDict [ (lit "id", VInt 9) ] ]);
                 (lit "nextPageCursor", VStr (lit "page2")) ])).

(** Every request to every endpoint is answered with that page. *)
Definition crowded (url : str) (n : nat) : http_result := crowded_page.


(** The fixture after an earlier run has stored a spike. *)
Definition old_spike : Spike.MechanicSpike :=
  {| Spike.universe_id := 456;
     Spike.game_name := lit "Slow Game";
     Spike.current_ccu := 5000;
     Spike.week_ago_ccu := 2000;
     Spike.growth_percent := 150;
     Spike.published_at := Some (today - WEEK);
     Spike.mechanic := lit "pets";
     Spike.video_title := lit "Slow Game update: pets";
     Spike.video_url := lit "https://youtube.com/watch?v=old1";
     Spike.channel_title := None;
     Spike.detected_at := today - WEEK |}.

End Scenarios.

(* ================================================================== *)
(** ** What a poll stores *)
(* ================================================================== *)

Module Stored.
Import PyStr Py Datetime Client.



(** The database as seen through the connection: the working copy of
    the open transaction, else the committed database. *)
Definition current (c : Connection) : Database :=
  match transaction c with
  | Some work => work
  | None => committed c
  end.

(** A row of [games] that belongs to the batch: it carries the timestamp
    of the batch and the identifier of one of its universes. *)
Definition in_batch (timestamp : Z) (uids : list Z) (r : Games.row) : bool :=
  (Games.timestamp r =? timestamp)
  && bool_decide (Games.universe_id r ∈ uids).



End Stored.

(* ================================================================== *)
(** ** mechanic_detector.py: the stored spikes *)
(* ================================================================== *)

Module History.
Import PyStr Detector.

(** [ORDER BY detected_at DESC]: a row is put before the first row that
    was detected strictly earlier. DuckDB leaves the order among rows
    detected at the same instant open; the model keeps them in the order
    of the table. *)
Fixpoint insert_desc (s : Spike.MechanicSpike)
    (sorted : list Spike.MechanicSpike) : list Spike.MechanicSpike :=
  match sorted with
  | [] => [s]
  | x :: rest =>
      if Spike.detected_at x <? Spike.detected_at s
      then s :: x :: rest
      else x :: insert_desc s rest
  end.

Definition order_by_detected_desc (rows : list Spike.MechanicSpike)
  : list Spike.MechanicSpike :=
  foldr insert_desc [] rows.

(** [a] may stand before [b] in the result. *)
Definition newer_first (a b : Spike.MechanicSpike) : Prop :=
  Spike.detected_at b <= Spike.detected_at a.

(** [get_historical_spikes] for a [limit] that is not negative: the
    query [ORDER BY detected_at DESC LIMIT ?] and one [MechanicSpike]
    for each row. The table exists, empty, when no spike was stored
    yet. *)
Definition get_historical_spikes (db : Database) (limit : nat)
  : list Spike.MechanicSpike :=
  take limit (order_by_detected_desc (mechanic_spikes db)).

End History.

(* ================================================================== *)
(** ** add_studio.py *)
(* ================================================================== *)

Module Studio.
Import PyStr.

(** A row of [studios], without its key [studio_id]: the columns that
    the program writes and reads, all nullable. The column
    [created_at], which has a default and is never read, is left
    out. *)
Record row := {
  name : option str;
  notion_token : option str;
  notion_database_id : option str;
  ntfy_topic : option str;
}.

(** The table, keyed by [studio_id TEXT PRIMARY KEY]. *)
Definition studios := gmap str row.

(** [s.replace(" ", "-")] *)
Definition hyphenate (s : str) : str :=
  map (fun c => if ascii_eqb c " "%char then "-"%char else c) s.

(** [name.lower().strip().replace(" ", "-")] *)
Definition studio_id (name : str) : str := hyphenate (strip (lower name)).

(** [add_studio]: [INSERT OR REPLACE] under the derived key. *)
Definition add_studio (table : gmap str row)
    (name notion_token database_id : str) (ntfy_topic : option str)
  : gmap str row :=
  <[ studio_id name :=
       {| name := Some name;
          notion_token := Some notion_token;
          notion_database_id := Some database_id;
          ntfy_topic := ntfy_topic |} ]> table.

End Studio.

(* ================================================================== *)
(** ** youtube_collector.py *)
(* ================================================================== *)

Module Collector.
Import PyStr Py Datetime.

(** The exceptions of the collector: those of Python met so far, the
    [RuntimeError] of a missing API key and the [HTTPError] of
    [raise_for_status]. *)
Inductive error :=
| Python (e : exn)
| RuntimeError
| HTTPError.

Inductive outcome (A : Type) :=
| Done (a : A)
| Fail (e : error).
Arguments Done {A} a.
Arguments Fail {A} e.

#[export] Instance outcome_bind : MBind outcome :=
  fun A B k r =>
    match r with
    | Done a => k a
    | Fail e => Fail e
    end.
#[export] Instance outcome_ret : MRet outcome := fun A a => Done a.

Definition lift {A} (r : result A) : outcome A :=
  match r with
  | Ok a => Done a
  | Raise e => Fail (Python e)
  end.

(** The dataclass [VideoRecord]; the fields copied from the payload
    hold whatever the payload held. *)
Record VideoRecord := {
  video_id : value;
  channel_id : value;
  channel_title : value;
  title : value;
  description : value;
  published_at : datetime;
  view_count : Z;
  like_count : Z;
  fetched_at : datetime;
}.

(** [response = requests.get(...); response.raise_for_status();
    response.json()] *)
Definition request (r : Client.http_result) : outcome value :=
  match r with
  | Client.Failed e => Fail (Python e)
  | Client.Response status json =>
      if (400 <=? status) && (status <? 600) then Fail HTTPError
      else lift json
  end.

(** [s.replace("Z", "+00:00")] *)
Definition replace_Z (s : str) : str :=
  flat_map (fun c => if ascii_eqb c "Z"%char then lit "+00:00" else [c]) s.

(** The [try] statement around [fromisoformat]: any exception, also that
    of calling [replace] on a value that has no such method, gives
    [fetched_at]. *)
Definition parse_published (fetched_at : datetime) (published_at_str : value)
  : datetime :=
  match published_at_str with
  | VStr s =>
      match fromisoformat (VStr (replace_Z s)) with
      | Ok dt => dt
      | Raise _ => fetched_at
      end
  | _ => fetched_at
  end.

(** [",".join(video_ids)] accepts strings only. *)
Definition joinable (v : value) : result str :=
  match v with
  | VStr s => Ok s
  | _ => Raise TypeError
  end.

(** [item["id"]] *)
Definition subscript_id (item : value) : result value :=
  match item with
  | VDict d =>
      match lookup_key (lit "id") d with
      | Some v => Ok v
      | None => Raise KeyError
      end
  | _ => Raise TypeError
  end.

(** A value can be a key of a dict unless it is a list or a dict. *)
Definition hashable (v : value) : result value :=
  match v with
  | VList _ | VDict _ => Raise TypeError
  | _ => Ok v
  end.

Definition as_number (v : value) : option Q :=
  match v with
  | VBool b => Some (if b then 1 else 0)%Q
  | VInt z => Some (inject_Z z)
  | VFloat q => Some q
  | _ => None
  end.

(** [a == b] on hashable values. *)
Definition key_eqb (a b : value) : bool :=
  match a, b with
  | VStr x, VStr y => str_eqb x y
  | VNone, VNone => true
  | _, _ =>
      match as_number a, as_number b with
      | Some x, Some y => Qeq_bool x y
      | _, _ => false
      end
  end.

(** A dict with arbitrary keys: the binding written last comes first. *)
Fixpoint dict_get (k : value) (d : list (value * value)) : option value :=
  match d with
  | [] => None
  | (k', v) :: d' => if key_eqb k k' then Some v else dict_get k d'
  end.

Section Collection.
(** [YOUTUBE_API_KEY], read from the environment when the module is
    loaded. *)
Variable YOUTUBE_API_KEY : option str.

(** The answer of the search endpoint for a channel and [max_results],
    and of the videos endpoint for a list of identifiers. *)
Variable search : str -> Z -> Client.http_result.
Variable videos : list str -> Client.http_result.

Definition _require_api_key : outcome str :=
  match YOUTUBE_API_KEY with
  | Some (c :: key) => Done (c :: key)
  | _ => Fail RuntimeError
  end.

Definition fetch_recent_video_ids (channel_id : str) (max_results : Z)
  : outcome value :=
  _ ← _require_api_key;
  payload ← request (search channel_id max_results);
  lift (get_default payload "items" (VList [])).

(** The loop [result[item["id"]] = item]. *)
Fixpoint index_items (result : list (value * value)) (items : list value)
  : outcome (list (value * value)) :=
  match items with
  | [] => Done result
  | item :: rest =>
      k ← lift (subscript_id item);
      k ← lift (hashable k);
      index_items ((k, item) :: result) rest
  end.

Definition fetch_video_statistics (video_ids : list value)
  : outcome (list (value * value)) :=
  match video_ids with
  | [] => Done []
  | _ =>
      _ ← _require_api_key;
      ids ← lift (map_result joinable video_ids);
      payload ← request (videos ids);
      items ← lift (get_default payload "items" (VList []));
      items ← lift (iterate items);
      index_items [] items
  end.

(** [[item["id"].get("videoId") for item in search_items
     if item.get("id")]] *)
Fixpoint searched_ids (search_items : list value) : result (list value) :=
  match search_items with
  | [] => Ok []
  | item :: rest =>
      c ← get item "id";
      if truthy c then
        v ← get c "videoId";
        vs ← searched_ids rest;
        Ok (v :: vs)
      else searched_ids rest
  end.

(** One turn of the loop over the search items: [Ok None] is
    [continue]. *)
Definition record_of (channel_id : str) (fetched_at : datetime)
    (stats_map : list (value * value)) (item : value)
  : result (option VideoRecord) :=
  idv ← get_default item "id" (VDict []);
  video_id ← get idv "videoId";
  if negb (truthy video_id) then Ok None
  else
    snippet ← get_default item "snippet" (VDict []);
    key ← hashable video_id;
    let stats := default (VDict []) (dict_get key stats_map) in
    published_at_str ← get snippet "publishedAt";
    let published_at := parse_published fetched_at published_at_str in
    statistics ← get_default stats "statistics" (VDict []);
    record_channel_id ← get_default snippet "channelId" (VStr channel_id);
    channel_title ← get_default snippet "channelTitle" (VStr (lit "Unknown"));
    title ← get_default snippet "title" (VStr []);
    description ← get_default snippet "description" (VStr []);
    views ← get_default statistics "viewCount" (VInt 0);
    views ← or_else views (Ok (VInt 0));
    view_count ← int views;
    likes ← get_default statistics "likeCount" (VInt 0);
    likes ← or_else likes (Ok (VInt 0));
    like_count ← int likes;
    Ok (Some {| video_id := video_id;
                channel_id := record_channel_id;
                channel_title := channel_title;
                title := title;
                description := description;
                published_at := published_at;
                view_count := view_count;
                like_count := like_count;
                fetched_at := fetched_at |}).

Fixpoint records_of (channel_id : str) (fetched_at : datetime)
    (stats_map : list (value * value)) (search_items : list value)
  : result (list VideoRecord) :=
  match search_items with
  | [] => Ok []
  | item :: rest =>
      r ← record_of channel_id fetched_at stats_map item;
      rs ← records_of channel_id fetched_at stats_map rest;
      Ok (match r with
          | Some record => record :: rs
          | None => rs
          end)
  end.

(** [now] is the clock, in UTC, when the statistics have arrived. *)
Definition collect_creator_videos (now : naive) (channel_id : str)
    (max_results : Z) : outcome (list VideoRecord) :=
  search_items ← fetch_recent_video_ids channel_id max_results;
  items ← lift (iterate search_items);
  video_ids ← lift (searched_ids items);
  stats_map ← fetch_video_statistics video_ids;
  lift (records_of channel_id (Aware now 0) stats_map items).
End Collection.

(** The search items the collector is written for: objects whose [id],
    when there is one, is an object. *)
Definition well_formed (item : value) : bool :=
  match item with
  | VDict d =>
      match lookup_key (lit "id") d with
      | None | Some (VDict _) => true
      | Some _ => false
      end
  | _ => false
  end.

(** A hit that is not a video: its [id] object is not empty and holds
    no string under [videoId]. *)
Definition lacks_video_id (item : value) : bool :=
  match item with
  | VDict d =>
      match lookup_key (lit "id") d with
      | Some (VDict (kv :: c)) =>
          match lookup_key (lit "videoId") (kv :: c) with
          | Some (VStr _) => false
          | _ => true
          end
      | _ => false
      end
  | _ => false
  end.

End Collector.

(* ================================================================== *)
(** ** Answers of the YouTube API used in examples *)
(* ================================================================== *)

Module Uploads.
Import PyStr Py Datetime.

Definition api_key : option str := Some (lit "secret").

Definition video_item (id title published : string) : value :=
  VDict [(lit "id", VDict [(lit "kind", VStr (lit "youtube#video"));
                           (lit "videoId", VStr (lit id))]);
         (lit "snippet", VDict [(lit "title", VStr (lit title));
                                (lit "publishedAt", VStr (lit published))])].

Definition channel_item : value :=
  VDict [(lit "id", VDict [(lit "kind", VStr (lit "youtube#channel"));
                           (lit "channelId", VStr (lit "UC1"))])].

Definition answer (items : list value) : Client.http_result :=
  Client.Response 200 (Ok (VDict [(lit "items", VList items)])).

Definition two_videos : list value :=
  [video_item "abc" "NEW UPDATE in Blox" "2024-01-15T12:00:00Z";
   video_item "def" "Secret code" "yesterday"].

Definition search_videos (channel_id : str) (max_results : Z)
  : Client.http_result :=
  answer two_videos.

Definition mixed_hits : list value :=
  [video_item "abc" "NEW UPDATE in Blox" "2024-01-15T12:00:00Z";
   channel_item].

Definition search_mixed (channel_id : str) (max_results : Z)
  : Client.http_result :=
  answer mixed_hits.

Definition statistics (ids : list str) : Client.http_result :=
  answer (map (fun id =>
                 VDict [(lit "id", VStr id);
                        (lit "statistics",
                         VDict [(lit "viewCount", VStr (lit "1200"))])])
              ids).

Definition noon : naive :=
  {| year := 2024; month := 1; day := 16; hour := 12; minute := 0;
     second := 0; microsecond := 0 |}.

End Uploads.

(* ================================================================== *)
(** ** The report of the detector: [format_spikes_table] *)
(* ================================================================== *)

Module Report.
Import PyStr Py.

Section Format.
(** The conversions of the f-strings and of [strftime]:
    [f"{x:.1f}%"], [f"{n:,}"] and ["%Y-%m-%d %H:%M"]. *)
Variable format_percent : Q -> str.
Variable format_thousands : Z -> str.
Variable strftime : Z -> str.

Definition headers : list str :=
  [ lit "Game"; lit "Growth"; lit "Current CCU"; lit "Mechanic";
    lit "Source"; lit "Published" ].

(** [["-" * len(h) for h in headers]] *)
Definition rule : list str :=
  map (fun h => replicate (length h) "-"%char) headers.

(** The cells of one spike; [None] has no [strftime]. *)
Definition cells (spike : Spike.MechanicSpike) : result (list str) :=
  match Spike.published_at spike with
  | Some published_at =>
      Ok [ Spike.game_name spike;
           format_percent (Spike.growth_percent spike);
           format_thousands (Spike.current_ccu spike);
           Spike.mechanic spike;
           Spike.video_url spike;
           strftime published_at ]
  | None => Raise AttributeError
  end.

(** [max(len(row[idx]) for row in rows)]; [rows] holds the headers, it
    is not empty. *)
Definition col_width (rows : list (list str)) (idx : nat) : nat :=
  foldr Nat.max 0%nat (map (fun row => length (nth idx row [])) rows).

Definition col_widths (rows : list (list str)) : list nat :=
  map (col_width rows) (seq 0 (length headers)).

(** [cell.ljust(width)] *)
Definition ljust (width : nat) (cell : str) : str :=
  cell ++ replicate (width - length cell) " "%char.

(** [sep.join(l)] *)
Fixpoint join (sep : str) (l : list str) : str :=
  match l with
  | [] => []
  | [x] => x
  | x :: rest => x ++ sep ++ join sep rest
  end.

(** One line: every row has as many cells as there are widths. *)
Definition line (widths : list nat) (row : list str) : str :=
  join (lit " | ") (zip_with ljust widths row).

(** The list [lines]. *)
Definition table_lines (spikes : list Spike.MechanicSpike)
  : result (list str) :=
  body ← map_result cells spikes;
  let rows := headers :: rule :: body in
  Ok (map (line (col_widths rows)) rows).

End Format.

End Report.

(* ================================================================== *)
(** ** dashboard_app.py *)
(* ================================================================== *)

Module Dashboard.
Import PyStr Detector.

(** A row of the data frame of [load_top_movers]. *)
Record mover := {
  universe_id : Z;
  game_name : option str;
  current_ccu : option Z;
  week_ago_ccu : option Z;
  growth_percent : option Q;
  current_timestamp : Z;
}.





(** [a < b] in the order of [ORDER BY]; [NULL] is ordered last. *)
Definition percent_lt (a b : option Q) : bool :=
  match a, b with
  | Some x, Some y => Qlt_bool x y
  | None, Some _ => true
  | _, _ => false
  end.

(** [ORDER BY growth_percent DESC]; the order among equal values is
    left open by DuckDB, the model keeps that of the scan. *)
Fixpoint insert_desc (m : mover) (sorted : list mover) : list mover :=
  match sorted with
  | [] => [m]
  | x :: rest =>
      if percent_lt (growth_percent x) (growth_percent m)
      then m :: x :: rest
      else x :: insert_desc m rest
  end.



End Dashboard.

(* ================================================================== *)
(** * Properties *)
(* ================================================================== *)

Import PyStr Py Datetime Detector Client Spec Examples.
Import Scenarios Stored History.

(** ** Strings *)

Lemma startswith_spec p s :
  startswith p s = true <-> exists post, s = p ++ post.
Proof.
  revert s. induction p as [|a p IH]; intros s; simpl.
  - split; [intros _; by exists s | done].
  - destruct s as [|c s]; simpl.
    + split; [done | intros [post H]; discriminate H].
    + rewrite andb_true_iff, IH. unfold ascii_eqb. rewrite Ascii.eqb_eq.
      split.
      * intros [-> [post ->]]. by exists post.
      * intros [post H]. injection H as -> ->. split; [done | by exists post].
Qed.


Lemma slice_to_length n s : (length (slice_to n s) <= n)%nat.
Proof. unfold slice_to. rewrite length_take. lia. Qed.

Lemma take_drop_while p s : take_while p s ++ drop_while p s = s.
Proof.
  induction s as [|c s IH]; simpl; [done|].
  destruct (p c); simpl; [by rewrite IH | done].
Qed.

Lemma take_while_all p s : forallb p (take_while p s) = true.
Proof.
  induction s as [|c s IH]; simpl; [done|].
  destruct (p c) eqn:E; simpl; [by rewrite E | done].
Qed.

Lemma drop_while_head p s c : head (drop_while p s) = Some c -> p c = false.
Proof.
  induction s as [|c' s IH]; simpl; [done|].
  destruct (p c') eqn:E; simpl; [done | congruence].
Qed.



(** ** The regular expression *)

Lemma match_literal_spec k s rest :
  match_literal k s = Some rest <-> exists kw, s = kw ++ rest /\ lower kw = k.
Proof.
  revert s. induction k as [|a k IH]; intros s; simpl.
  - split.
    + intros [= ->]. by exists [].
    + intros [kw [-> H]]. destruct kw; [done | discriminate H].
  - destruct s as [|c s].
    + split; [done|]. intros [kw [H1 H2]]. destruct kw; [discriminate H2|].
      discriminate H1.
    + unfold ascii_eqb. destruct (Ascii.eqb (lower_char c) a) eqn:E.
      * apply Ascii.eqb_eq in E. rewrite IH. split.
        -- intros [kw [-> <-]]. exists (c :: kw). simpl. by rewrite E.
        -- intros [kw [H1 H2]]. destruct kw as [|c' kw]; [discriminate H2|].
           simpl in H1, H2. injection H1 as -> ->. injection H2 as _ H2.
           by exists kw.
      * apply Ascii.eqb_neq in E. split; [done|].
        intros [kw [H1 H2]]. destruct kw as [|c' kw]; [discriminate H2|].
        simpl in H1, H2. injection H1 as -> ->. injection H2 as H2 _. done.
  Qed.

Lemma match_literal_startswith k s :
  is_Some (match_literal k s) <-> startswith k (lower s) = true.
Proof.
  revert s. induction k as [|a k IH]; intros s; simpl.
  - split; [done | by eexists].
  - destruct s as [|c s]; simpl.
    + split; [by intros [? ?] | done].
    + unfold ascii_eqb. rewrite (Ascii.eqb_sym a).
      destruct (Ascii.eqb (lower_char c) a); simpl; [apply IH|].
      split; [by intros [? ?] | done].
Qed.

Lemma match_alternation_Some ks s rest :
  match_alternation ks s = Some rest ->
  exists k, k ∈ ks /\ match_literal k s = Some rest.
Proof.
  induction ks as [|k ks IH]; simpl; [done|].
  destruct (match_literal k s) as [r|] eqn:E.
  - intros [= ->]. exists k. split; [left | done].
  - intros H. destruct (IH H) as [k' [Hin Hk]]. exists k'.
    split; [by right | done].
Qed.

Lemma match_alternation_None ks s :
  match_alternation ks s = None <->
  forall k, k ∈ ks -> startswith k (lower s) = false.
Proof.
  induction ks as [|k ks IH]; simpl.
  - split; [|done]. intros _ k Hk. inversion Hk.
  - destruct (match_literal k s) as [r|] eqn:E.
    + split; [done|]. intros H.
      assert (startswith k (lower s) = true) as Hs
        by (apply match_literal_startswith; rewrite E; by eexists).
      rewrite H in Hs; [done | left].
    + rewrite IH. split.
      * intros H k' Hk'. apply elem_of_cons in Hk' as [-> | Hin]; [|by apply H].
        destruct (startswith k (lower s)) eqn:Hs; [|done].
        apply match_literal_startswith in Hs. rewrite E in Hs.
        by destruct Hs.
      * intros H k' Hk'. apply H. by right.
Qed.

Lemma match_here_Some s g :
  match_here s = Some g -> captured_at s [] g.
Proof.
  unfold match_here.
  destruct (match_alternation TRIGGERS s) as [rest|] eqn:E; [|done].
  intros [= <-]. apply match_alternation_Some in E as [k [Hk E]].
  apply match_literal_spec in E as [kw [-> Hkw]].
  exists kw, (take_while is_separator rest),
    (drop_while is_dot (drop_while is_separator rest)).
  rewrite (take_drop_while is_dot), (take_drop_while is_separator).
  repeat split.
  - by rewrite Hkw.
  - apply take_while_all.
  - intros c. apply drop_while_head.
  - apply take_while_all.
  - intros c. apply drop_while_head.
Qed.

Lemma match_here_None s :
  match_here s = None <->
  forall k, k ∈ TRIGGERS -> startswith k (lower s) = false.
Proof.
  unfold match_here. rewrite <- match_alternation_None.
  destruct (match_alternation TRIGGERS s); split; done.
Qed.

Lemma captured_at_cons c title pre g :
  captured_at title pre g -> captured_at (c :: title) (c :: pre) g.
Proof.
  intros (kw & seps & rest & -> & H). exists kw, seps, rest. done.
Qed.

Lemma search_Some title g :
  MECHANIC_REGEX_search title = Some g ->
  exists pre, captured_at title pre g /\ leftmost title pre.
Proof.
  induction title as [|c title IH]; simpl.
  - intros H. exists []. split; [by apply match_here_Some|].
    intros k p q _ _. simpl. lia.
  - destruct (match_here (c :: title)) as [g'|] eqn:E.
    + intros [= ->]. exists []. split; [by apply match_here_Some|].
      intros k p q _ _. simpl. lia.
    + intros H. destruct (IH H) as [pre [Hc Hl]]. exists (c :: pre).
      split; [by apply captured_at_cons|].
      intros k p q Hk Hp. destruct p as [|c' p].
      * rewrite match_here_None in E. specialize (E k Hk).
        assert (startswith k (lower (c :: title)) = true) as Hs
          by (apply startswith_spec; by exists q).
        congruence.
      * simpl in Hp. injection Hp as _ Hp. simpl.
        specialize (Hl k p q Hk Hp). lia.
Qed.



(** ** Mechanic label (C8) *)



(** ** Matching a title against a game (C2) *)


(** ** Mentions without a title (C10) *)

Section Untitled.
Variable partial_ratio : str -> str -> Q.
Variable now : Z.

Lemma spike_of_untitled c video :
  untitled video -> spike_of partial_ratio now c video = None.
Proof. unfold spike_of. by intros [-> | ->]. Qed.

Lemma correlate_skip candidates before video after :
  (forall c, spike_of partial_ratio now c video = None) ->
  correlate partial_ratio now candidates (before ++ video :: after)
  = correlate partial_ratio now candidates (before ++ after).
Proof.
  intros Hnone. unfold correlate.
  induction candidates as [|c candidates IH]; [done|].
  rewrite !bind_cons, IH. f_equal.
  rewrite !omap_app. simpl. by rewrite Hnone.
Qed.

Lemma read_growth_candidates_videos db videos threshold :
  _read_growth_candidates now (with_videos db videos) threshold
  = _read_growth_candidates now db threshold.
Proof. done. Qed.
End Untitled.

(** C10: a mention whose title is null or empty yields no spike with any
    candidate, and a detection run returns the same spikes as it would
    without that mention. *)
Theorem untitled_mention_skipped
    (partial_ratio : str -> str -> Q) (now : Z) (db : Database)
    (lookback_hours : Z) (growth_threshold : Q) (persist : bool)
    (before after : list Videos.row) (video : Videos.row) :
  untitled video ->
  (forall c, spike_of partial_ratio now c video = None)
  /\ fst (detect_mechanic_spikes partial_ratio now
            (with_videos db (before ++ video :: after))
            lookback_hours growth_threshold persist)
     = fst (detect_mechanic_spikes partial_ratio now
              (with_videos db (before ++ after))
              lookback_hours growth_threshold persist).
Proof.
  intros Hu.
  assert (forall c, spike_of partial_ratio now c video = None) as Hnone
    by (intros c; by apply spike_of_untitled).
  split; [done|]. unfold detect_mechanic_spikes.
  rewrite !read_growth_candidates_videos.
  destruct (_read_growth_candidates now db growth_threshold) as [|c cs];
    [done|].
  cbn [fst]. unfold _fetch_recent_videos. cbn [youtube_videos with_videos].
  rewrite !List.filter_app. cbn [List.filter].
  destruct (match Videos.published_at video with
            | Some p => _ <=? p
            | None => false
            end); [|done].
  by apply correlate_skip.
Qed.

Lemma untitled_mention_skipped_witness :
  untitled untitled_video
  /\ ((forall c, spike_of no_similarity today c untitled_video = None)
      /\ fst (detect_mechanic_spikes no_similarity today
                (with_videos test_db ([test_video] ++ untitled_video :: []))
                48 GROWTH_THRESHOLD false)
         = fst (detect_mechanic_spikes no_similarity today
                  (with_videos test_db ([test_video] ++ []))
                  48 GROWTH_THRESHOLD false)).
Proof.
  split; [by right|].
  apply (untitled_mention_skipped no_similarity today test_db 48
           GROWTH_THRESHOLD false [test_video] [] untitled_video).
  by right.
Defined.

(** ** The growth window *)

Lemma newest_elem rows r : newest rows = Some r -> r ∈ rows.
Proof.
  revert r. induction rows as [|r0 rows IH]; simpl; intros r; [done|].
  destruct (newest rows) as [r'|].
  - destruct (Games.timestamp r0 <? Games.timestamp r'); intros [= <-].
    + right. by apply IH.
    + left.
  - intros [= <-]. left.
Qed.

Lemma newest_is_Some rows r : r ∈ rows -> is_Some (newest rows).
Proof.
  destruct rows as [|r0 rows]; [intros H; by apply elem_of_nil in H|].
  intros _. simpl. destruct (newest rows); [destruct (_ <? _)|]; by eexists.
Qed.

Lemma newest_max rows r r' :
  newest rows = Some r -> r' ∈ rows ->
  Games.timestamp r' <= Games.timestamp r.
Proof.
  revert r. induction rows as [|r0 rows IH]; simpl; intros r.
  - intros _ H. by apply elem_of_nil in H.
  - destruct (newest rows) as [r1|] eqn:E.
    + destruct (Z.ltb_spec (Games.timestamp r0) (Games.timestamp r1));
        intros [= <-] Hin; apply elem_of_cons in Hin as [-> | Hin];
        try specialize (IH _ eq_refl Hin); lia.
    + intros [= <-] Hin. apply elem_of_cons in Hin as [-> | Hin]; [lia|].
      apply newest_is_Some in Hin as [? Hin]. congruence.
Qed.

Lemma newest_unique rows r :
  r ∈ rows ->
  (forall r', r' ∈ rows -> Games.timestamp r' <= Games.timestamp r) ->
  (forall r', r' ∈ rows -> Games.timestamp r' = Games.timestamp r -> r' = r) ->
  newest rows = Some r.
Proof.
  intros Hin Hmax Huniq.
  destruct (newest_is_Some _ _ Hin) as [r' Hr']. rewrite Hr'. f_equal.
  apply Huniq; [by eapply newest_elem|].
  pose proof (newest_max _ _ _ Hr' Hin).
  pose proof (Hmax r' (newest_elem _ _ Hr')). lia.
Qed.

Lemma elem_partition uid rows r :
  r ∈ partition uid rows <-> Games.universe_id r = uid /\ r ∈ rows.
Proof. unfold partition. by rewrite list_elem_of_filter. Qed.

Lemma elem_rank_one rows r :
  r ∈ rank_one rows <-> newest (partition (Games.universe_id r) rows) = Some r.
Proof.
  unfold rank_one. rewrite list_elem_of_omap. split.
  - intros [uid [_ H]]. pose proof (newest_elem _ _ H) as Hin.
    apply elem_partition in Hin as [<- _]. done.
  - intros H. exists (Games.universe_id r). split; [|done].
    apply elem_of_remove_dups. apply newest_elem, elem_partition in H as [_ H].
    apply list_elem_of_In, in_map, list_elem_of_In, H.
Qed.


Lemma baseline_newest now db uid r :
  key_unique (games db) -> is_baseline now db uid r ->
  newest (partition uid
            (filter (fun r => Games.timestamp r <= now - 7 * MICROS_PER_DAY)
                    (games db))) = Some r.
Proof.
  intros Hkey (Hin & Huid & Hold & Hmax). apply newest_unique.
  - apply elem_partition. split; [done|]. by apply list_elem_of_filter.
  - intros r' Hr'. apply elem_partition in Hr' as [? Hr'].
    apply list_elem_of_filter in Hr' as [? ?]. by apply Hmax.
  - intros r' Hr' Hts. apply elem_partition in Hr' as [? Hr'].
    apply list_elem_of_filter in Hr' as [? ?].
    apply Hkey; [done | done | congruence | done].
Qed.

Lemma newest_baseline now db uid r :
  newest (partition uid
            (filter (fun r => Games.timestamp r <= now - 7 * MICROS_PER_DAY)
                    (games db))) = Some r ->
  is_baseline now db uid r.
Proof.
  intros H. pose proof (newest_elem _ _ H) as Hin.
  apply elem_partition in Hin as [Huid Hin].
  apply list_elem_of_filter in Hin as [Hold Hin].
  repeat split; try done.
  intros r' Hr' Hu' Ho'. eapply newest_max; [exact H|].
  apply elem_partition. split; [done|]. by apply list_elem_of_filter.
Qed.

(** The rows of the query, by membership. *)
Lemma elem_growth_query now db row :
  row ∈ growth_query now db <->
  exists cur prev,
    newest (partition (row_universe_id row) (games db)) = Some cur
    /\ newest (partition (row_universe_id row)
                 (filter (fun r => Games.timestamp r
                                    <= now - 7 * MICROS_PER_DAY)
                         (games db))) = Some prev
    /\ sql_positive (Games.ccu prev) = true
    /\ row = {| row_universe_id := Games.universe_id cur;
                row_game_name :=
                  coalesce_name (game_metadata db !! Games.universe_id cur) cur;
                row_current_ccu := Games.ccu cur;
                row_week_ago_ccu := Games.ccu prev;
                row_growth_rate :=
                  sql_growth_rate (Games.ccu cur) (Games.ccu prev);
                row_current_timestamp := Games.timestamp cur |}.
Proof.
  unfold growth_query, filtered_latest, filtered_week_ago.
  rewrite list_elem_of_bind. split.
  - intros (cur & Hrow & Hcur). apply list_elem_of_bind in Hrow
      as (prev & Hrow & Hprev).
    apply list_elem_of_filter in Hprev as [Huid Hprev].
    apply elem_rank_one in Hcur, Hprev.
    destruct (sql_positive (Games.ccu prev)) eqn:Hpos;
      [|by apply elem_of_nil in Hrow].
    apply list_elem_of_singleton in Hrow. subst row. cbn [row_universe_id].
    exists cur, prev. rewrite <- Huid at 2. done.
  - intros (cur & prev & Hcur & Hprev & Hpos & ->). cbn [row_universe_id] in *.
    pose proof (newest_elem _ _ Hprev) as Hp.
    apply elem_partition in Hp as [Hp _].
    exists cur. split; [|by apply elem_rank_one].
    apply list_elem_of_bind. exists prev. split.
    + rewrite Hpos. left.
    + apply list_elem_of_filter. split; [done|].
      apply elem_rank_one. by rewrite Hp.
Qed.

Lemma candidate_of_row_Some threshold row cand :
  candidate_of_row threshold row = Some cand <->
  exists q,
    row_growth_rate row = Some q
    /\ (threshold <= q)%Q
    /\ cand = {| Detector.universe_id := row_universe_id row;
                 game_name := name_or_unknown (row_game_name row);
                 current_ccu := default 0 (row_current_ccu row);
                 week_ago_ccu := default 0 (row_week_ago_ccu row);
                 growth_percent := (q * 100)%Q;
                 current_timestamp := row_current_timestamp row |}.
Proof.
  unfold candidate_of_row, Qlt_bool.
  destruct (row_growth_rate row) as [q|].
  - destruct (Qle_bool threshold q) eqn:E; simpl.
    + apply Qle_bool_iff in E. split.
      * intros [= <-]. by exists q.
      * intros (q' & [= <-] & _ & ->). done.
    + split; [done|]. intros (q' & [= <-] & H & _).
      apply Qle_bool_iff in H. congruence.
  - split; [done|]. by intros (q' & H & _).
Qed.


(** ** Growth rate and threshold (C1) *)


(** ** Undefined growth (C7) *)

(** C7: a universe that has no snapshot at least seven days old, or
    whose baseline snapshot has a metric that is null, zero or negative,
    does not appear in the output of the evaluator, whatever its current
    metric; the evaluator returns its list all the same. *)
Theorem undefined_growth_excluded
    (now : Z) (db : Database) (threshold : Q) (uid : Z) :
  key_unique (games db) ->
  (forall r, r ∈ games db -> Games.universe_id r = uid -> ~ week_old now r)
  \/ (exists prev,
        is_baseline now db uid prev
        /\ match Games.ccu prev with
           | Some b => b <= 0
           | None => True
           end) ->
  ~ has_candidate (_read_growth_candidates now db threshold) uid.
Proof.
  intros Hkey Hno (cand & Hcand & Hcu).
  unfold _read_growth_candidates in Hcand.
  apply list_elem_of_omap in Hcand as (row & Hrow & Hcand).
  apply candidate_of_row_Some in Hcand as (q & _ & _ & ->).
  cbn [Detector.universe_id] in Hcu.
  apply elem_growth_query in Hrow as (cur & prev & _ & Hprev & Hpos & _).
  rewrite Hcu in Hprev. pose proof (newest_baseline _ _ _ _ Hprev) as Hbase.
  destruct Hno as [Hno | (prev0 & Hbase0 & Hccu)].
  - destruct Hbase as (Hin & Hu & Hold & _). by apply (Hno prev).
  - pose proof (baseline_newest _ _ _ _ Hkey Hbase0) as Hprev0.
    rewrite Hprev in Hprev0. injection Hprev0 as ->.
    destruct (Games.ccu prev0) as [b|]; simpl in Hpos; [|done].
    apply Z.ltb_lt in Hpos. lia.
Qed.

(** The evaluator on the rows of the test fixture. *)

Ltac rows_of H :=
  repeat (apply elem_of_cons in H as [-> | H]);
  try (by apply elem_of_nil in H).

Lemma test_db_key_unique : key_unique (games test_db).
Proof.
  intros r r' Hr Hr' Hu Ht. cbn [games test_db] in Hr, Hr'.
  rows_of Hr; rows_of Hr'; (reflexivity || discriminate Hu || discriminate Ht).
Qed.

Example test_db_candidates :
  map Detector.universe_id
      (_read_growth_candidates today test_db GROWTH_THRESHOLD) = [123].
Proof. vm_compute. reflexivity. Qed.


Lemma undefined_growth_excluded_witness :
  (exists prev,
     is_baseline today test_db 789 prev
     /\ match Games.ccu prev with
        | Some b => b <= 0
        | None => True
        end)
  /\ ~ has_candidate (_read_growth_candidates today test_db GROWTH_THRESHOLD) 789.
Proof.
  assert (is_baseline today test_db 789 dead_game_before) as Hbase.
  { split; [do 5 right; left|]. split; [done|]. split; [done|].
    intros r Hr Hu Ho.
    cbn [games test_db] in Hr. rows_of Hr; (discriminate Hu || done). }
  assert (exists prev,
     is_baseline today test_db 789 prev
     /\ match Games.ccu prev with
        | Some b => b <= 0
        | None => True
        end) as H by (exists dead_game_before; split; [done|simpl; lia]).
  split; [done|].
  apply (undefined_growth_excluded today test_db GROWTH_THRESHOLD 789
           test_db_key_unique).
  by right.
Defined.

(** ** Failed metric fetches (C5) *)

Lemma fetch_never_raises r uid :
  exists snapshot, _fetch_universe_snapshot r uid = Ok snapshot.
Proof.
  unfold _fetch_universe_snapshot.
  destruct (try_fetch r uid) as [[snapshot|]|e]; by eexists.
Qed.

Lemma fetch_snapshot_id r uid snapshot :
  _fetch_universe_snapshot r uid = Ok snapshot -> universe_id snapshot = uid.
Proof.
  unfold _fetch_universe_snapshot.
  destruct (try_fetch r uid) as [[s|]|e] eqn:E; intros [= <-]; try done.
  unfold try_fetch in E. destruct r as [e|status json]; [done|].
  destruct (status =? 200); [|done].
  repeat
    match type of E with
    | (mbind _ ?x) = _ => destruct x; simpl in E; try done
    | (if ?b then _ else _) = _ => destruct b; try done
    end.
  by injection E as <-.
Qed.

Lemma fetch_failed_zero r uid :
  fetch_failed r -> _fetch_universe_snapshot r uid = Ok (zero_snapshot uid).
Proof.
  unfold fetch_failed, _fetch_universe_snapshot, try_fetch.
  destruct r as [e|status json]; [done|].
  destruct (Z.eqb_spec status 200) as [->|Hne]; [|done].
  intros [H|H]; [done|]. destruct json as [payload|e]; [|done]. simpl.
  destruct (get payload "data") as [data|e]; [|done]. simpl. by rewrite H.
Qed.

Lemma gather_total fetch ids :
  exists snapshots,
    gather fetch ids = Ok snapshots
    /\ map universe_id snapshots = ids
    /\ Forall2 (fun uid s => _fetch_universe_snapshot (fetch uid) uid = Ok s)
               ids snapshots.
Proof.
  unfold gather. induction ids as [|uid ids (snapshots & IH & Hids & Hall)].
  - by exists [].
  - destruct (fetch_never_raises (fetch uid) uid) as [s Hs].
    exists (s :: snapshots). cbn [map_result]. rewrite Hs, IH. simpl.
    split; [done|]. split; [|by constructor].
    by rewrite (fetch_snapshot_id _ _ _ Hs), Hids.
Qed.

(** C5: a metric fetch never raises. When it fails (the request raises,
    the status is not 200, the body is no JSON or has no data), the
    snapshot of that candidate has the metric 0, the name ["Unknown"] and
    null in every optional field; the batch gets one snapshot for each
    candidate all the same. *)
Theorem fetch_failure_degrades
    (fetch : Z -> http_result) (unique_ids : list Z) (uid : Z) :
  fetch_failed (fetch uid) ->
  (exists snapshot,
     _fetch_universe_snapshot (fetch uid) uid = Ok snapshot
     /\ universe_id snapshot = uid
     /\ ccu snapshot = VInt 0
     /\ name snapshot = VStr (lit "Unknown")
     /\ root_place_id snapshot = VNone
     /\ description snapshot = VNone
     /\ creator_id snapshot = VNone
     /\ creator_name snapshot = VNone
     /\ genre snapshot = VNone
     /\ visits snapshot = VNone)
  /\ (exists snapshots,
        gather fetch unique_ids = Ok snapshots
        /\ map universe_id snapshots = unique_ids
        /\ (uid ∈ unique_ids -> zero_snapshot uid ∈ snapshots)).
Proof.
  intros Hfail. split.
  - exists (zero_snapshot uid). split; [by apply fetch_failed_zero|done].
  - destruct (gather_total fetch unique_ids) as (snapshots & Hg & Hids & Hall).
    exists snapshots. split; [done|]. split; [done|]. intros Hin.
    clear Hg Hids. induction Hall as [|uid' s ids ss Hs Hall IH].
    + by apply elem_of_nil in Hin.
    + apply elem_of_cons in Hin as [<- | Hin].
      * rewrite (fetch_failed_zero _ uid Hfail) in Hs. injection Hs as <-.
        left.
      * right. by apply IH.
Qed.

Lemma fetch_failure_degrades_witness :
  fetch_failed (failing_fetch 2)
  /\ exists snapshots,
       gather failing_fetch [1; 2] = Ok snapshots
       /\ map universe_id snapshots = [1; 2]
       /\ (2 ∈ [1; 2] -> zero_snapshot 2 ∈ snapshots).
Proof.
  assert (fetch_failed (failing_fetch 2)) as H by (by left).
  split; [done|].
  apply (fetch_failure_degrades failing_fetch [1; 2] 2 H).
Defined.

(** ** The cache file (C9, C4) *)

Section Cache.
Variable cache_ttl : Z.
Variable discovery : str -> nat -> http_result.


Lemma resolve_after_miss fuel now later file limit :
  _load_cached_universes cache_ttl now file = Ok None
  \/ _load_cached_universes cache_ttl now file = Ok (Some []) ->
  get_top_universe_ids cache_ttl discovery fuel now later file limit
  = resolve_without_cache discovery fuel later limit.
Proof.
  unfold get_top_universe_ids, resolve_without_cache.
  by intros [-> | ->].
Qed.

Lemma resolve_after_hit fuel now later file limit uid cached :
  _load_cached_universes cache_ttl now file = Ok (Some (uid :: cached)) ->
  get_top_universe_ids cache_ttl discovery fuel now later file limit
  = Some (Ok (slice_upto limit (uid :: cached)), file).
Proof. unfold get_top_universe_ids. by intros ->. Qed.

Lemma map_result_int ids : map_result int (map VInt ids) = Ok ids.
Proof.
  induction ids as [|z ids IH]; [done|]. cbn [map map_result int].
  rewrite IH. done.
Qed.

(** The loader on a well-formed entry. *)
Lemma load_entry now d ts g ids :
  lookup_key (lit "generated_at") d = Some (VStr ts) ->
  fromisoformat (VStr ts) = Ok (Naive g) ->
  lookup_key (lit "universe_ids") d = Some (VList (map VInt ids)) ->
  _load_cached_universes cache_ttl now (Parsed (VDict d))
  = Ok (if cache_ttl <? micros now - micros g then None else Some ids).
Proof.
  intros Hts Hg Hids.
  assert (truthy (VStr ts) = true) as Htruthy by (by destruct ts).
  unfold _load_cached_universes, get, get_default.
  rewrite Hts, Hids. cbn [from_option mbind result_bind bind]. unfold id.
  rewrite Htruthy, Hg. cbn [negb sub mbind result_bind bind].
  destruct (cache_ttl <? micros now - micros g); [done|].
  cbn [iterate mbind result_bind bind]. by rewrite map_result_int.
Qed.
End Cache.




(** C4, as stated, fails at the boundary: an entry whose age equals the
    TTL is returned. The entry was written at midnight, the TTL is the
    default of four hours, the resolver runs at four o'clock. *)
Lemma cache_honoured_at_ttl :
  micros four_o_clock - micros midnight = timedelta_hours DEFAULT_CACHE_HOURS
  /\ fromisoformat (VStr (lit "2024-01-15T00:00:00")) = Ok (Naive midnight)
  /\ _load_cached_universes (timedelta_hours DEFAULT_CACHE_HOURS) four_o_clock
       midnight_cache = Ok (Some [7; 8])
  /\ get_top_universe_ids (timedelta_hours DEFAULT_CACHE_HOURS) unreachable 1
       four_o_clock four_o_clock midnight_cache 10
     = Some (Ok [7; 8], midnight_cache).
Proof. repeat split; reflexivity. Qed.

(** C4, amended: for a cache entry with a non-empty list of identifiers,
    of age [N] at resolution time, and a TTL [T], the loader returns the
    list exactly when [N <= T] and a miss exactly when [T < N]. In the
    first case the resolver returns the list cut to [limit] and leaves
    the file alone; in the second it goes on to discovery. An entry
    whose age equals the TTL is still honoured. *)
Theorem cache_honoured_up_to_ttl
    (cache_ttl : Z) (discovery : str -> nat -> http_result) (fuel : nat)
    (now later : naive) (limit : Z)
    (d : list (str * value)) (ts : str) (g : naive) (uid : Z) (ids : list Z) :
  lookup_key (lit "generated_at") d = Some (VStr ts) ->
  fromisoformat (VStr ts) = Ok (Naive g) ->
  lookup_key (lit "universe_ids") d = Some (VList (map VInt (uid :: ids))) ->
  (_load_cached_universes cache_ttl now (Parsed (VDict d))
   = Ok (Some (uid :: ids))
   <-> micros now - micros g <= cache_ttl)
  /\ (_load_cached_universes cache_ttl now (Parsed (VDict d)) = Ok None
      <-> cache_ttl < micros now - micros g)
  /\ (micros now - micros g <= cache_ttl ->
      get_top_universe_ids cache_ttl discovery fuel now later
        (Parsed (VDict d)) limit
      = Some (Ok (slice_upto limit (uid :: ids)), Parsed (VDict d)))
  /\ (cache_ttl < micros now - micros g ->
      get_top_universe_ids cache_ttl discovery fuel now later
        (Parsed (VDict d)) limit
      = resolve_without_cache discovery fuel later limit).
Proof.
  intros Hts Hg Hids.
  pose proof (load_entry cache_ttl now d ts g (uid :: ids) Hts Hg Hids)
    as Hload.
  destruct (Z.ltb_spec cache_ttl (micros now - micros g)) as [Hlt|Hle].
  - repeat split; try (rewrite Hload; done); try lia.
    intros _. apply resolve_after_miss. by left.
  - repeat split; try (rewrite Hload; done); try lia.
    intros _. by apply resolve_after_hit.
Qed.

Lemma cache_honoured_up_to_ttl_witness :
  (_load_cached_universes (timedelta_hours 4) one_o_clock midnight_cache
   = Ok (Some [7; 8])
   <-> micros one_o_clock - micros midnight <= timedelta_hours 4)
  /\ (micros one_o_clock - micros midnight <= timedelta_hours 4 ->
      get_top_universe_ids (timedelta_hours 4) unreachable 1 one_o_clock
        one_o_clock midnight_cache 1
      = Some (Ok (slice_upto 1 [7; 8]), midnight_cache)).
Proof.
  pose proof (cache_honoured_up_to_ttl (timedelta_hours 4) unreachable 1
                one_o_clock one_o_clock 1
                [ (lit "generated_at", VStr (lit "2024-01-15T00:00:00"));
                  (lit "universe_ids", VList [VInt 7; VInt 8]) ]
                (lit "2024-01-15T00:00:00") midnight 7 [8]
                eq_refl eq_refl eq_refl) as (H1 & _ & H3 & _).
  split; [exact H1 | exact H3].
Defined.

(** ** The static fallback (C6) *)

Lemma fallback_unique : unique FALLBACK_UNIVERSES = FALLBACK_UNIVERSES.
Proof. vm_compute. reflexivity. Qed.

Lemma fallback_length : length FALLBACK_UNIVERSES = 46%nat.
Proof. reflexivity. Qed.

Lemma slice_upto_nonempty {A} (limit : Z) (x : A) (l : list A) :
  1 <= limit -> slice_upto limit (x :: l) <> [].
Proof.
  intros H. unfold slice_upto.
  destruct (Z.leb_spec 0 limit) as [_|?]; [|lia].
  destruct (Z.to_nat limit) eqn:E; [lia | done].
Qed.





(** ** The poll batch (C3) *)


(** Inside a transaction nothing reaches the committed database before
    [commit]. *)
Lemma transaction_keeps_committed c sts :
  is_Some (transaction c) ->
  committed (fst (execute_all c sts)) = committed c.
Proof.
  revert c. induction sts as [|st sts IH]; intros c [work Hw]; [done|].
  cbn [execute_all]. unfold execute, run. rewrite Hw.
  destruct (apply st work) as [work'|e]; [|done]. simpl.
  rewrite IH; [done | by eexists].
Qed.













(** ** Writing and reading the cache timestamp *)

Lemma digit_val_of z :
  0 <= z < 10 -> digit_val (ascii_of_N (Z.to_N z + 48)) = Some z.
Proof.
  intros H.
  assert (z = 0 \/ z = 1 \/ z = 2 \/ z = 3 \/ z = 4 \/ z = 5 \/ z = 6
          \/ z = 7 \/ z = 8 \/ z = 9) as Hz by lia.
  repeat (destruct Hz as [-> | Hz]; [reflexivity|]). by subst.
Qed.

Lemma digits_snoc w acc s :
  digits (S w) acc s
  = '(v, s1) ← digits w acc s;
    match s1 with
    | c :: s' => d ← digit_val c; Some (v * 10 + d, s')
    | [] => None
    end.
Proof.
  revert acc s. induction w as [|w IH]; intros acc s.
  - destruct s as [|c s]; [done|]. cbn. by destruct (digit_val c).
  - destruct s as [|c s]; [done|]. cbn [digits].
    destruct (digit_val c) as [d|]; [|done]. apply IH.
Qed.

Lemma digits_pad w acc z rest :
  0 <= z < 10 ^ Z.of_nat w ->
  digits w acc (pad w z ++ rest) = Some (acc * 10 ^ Z.of_nat w + z, rest).
Proof.
  revert acc z rest. induction w as [|w IH]; intros acc z rest Hz.
  - cbn. f_equal. f_equal. change (10 ^ Z.of_nat 0) with 1 in Hz. lia.
  - rewrite Nat2Z.inj_succ, Z.pow_succ_r in * by lia.
    rewrite digits_snoc. cbn [pad]. rewrite <- app_assoc.
    pose proof (Z.div_mod z 10 ltac:(lia)) as Hdm.
    pose proof (Z.mod_pos_bound z 10 ltac:(lia)) as Hmod.
    rewrite IH by (split; [apply Z.div_pos; lia | apply Z.div_lt_upper_bound; lia]).
    cbn [mbind option_bind app]. rewrite digit_val_of by done.
    cbn [mbind option_bind]. f_equal. f_equal. lia.
Qed.

Lemma digits_pad0 w z rest :
  0 <= z < 10 ^ Z.of_nat w -> digits w 0 (pad w z ++ rest) = Some (z, rest).
Proof. intros H. by rewrite digits_pad. Qed.

Lemma valid_bounds n :
  valid n = true ->
  0 <= year n < 10 ^ Z.of_nat 4 /\ 0 <= month n < 10 ^ Z.of_nat 2
  /\ 0 <= day n < 10 ^ Z.of_nat 2 /\ 0 <= hour n < 10 ^ Z.of_nat 2
  /\ 0 <= minute n < 10 ^ Z.of_nat 2 /\ 0 <= second n < 10 ^ Z.of_nat 2
  /\ 0 <= microsecond n < 10 ^ Z.of_nat 6.
Proof.
  unfold valid. intros H.
  repeat (apply andb_true_iff in H as [H ?]).
  assert (days_in_month (year n) (month n) <= 31)
    by (unfold days_in_month; repeat destruct (_ =? _); try destruct (is_leap _);
        cbn; lia).
  change (10 ^ Z.of_nat 4) with 10000. change (10 ^ Z.of_nat 2) with 100.
  change (10 ^ Z.of_nat 6) with 1000000. lia.
Qed.

(** [fromisoformat] reads back what [isoformat] writes. *)
Lemma fromisoformat_isoformat n :
  valid n = true -> fromisoformat (VStr (isoformat n)) = Ok (Naive n).
Proof.
  intros Hv. destruct (valid_bounds n Hv) as (Hy & Hmo & Hd & Hh & Hmi & Hs & Hus).
  unfold fromisoformat, parse_isoformat, isoformat.
  change (lit "-") with ["-"%char]. change (lit "T") with ["T"%char].
  change (lit ":") with [":"%char]. change (lit ".") with ["."%char].
  destruct n as [y mo d h mi sec us]. cbn [year month day hour minute second
    microsecond] in *.
  assert (forall c, ascii_eqb c c = true) as Hrefl
    by (intros c; apply Ascii.eqb_refl).
  unfold clock_fields, fraction.
  destruct (Z.eqb_spec us 0) as [->|Hne].
  - repeat (rewrite digits_pad0 by done;
            repeat (cbn [mbind option_bind app expect]; rewrite ?Hrefl)).
    by rewrite Hv.
  - rewrite <- (app_nil_r (pad 6 us)).
    repeat (rewrite digits_pad0 by done;
            repeat (cbn [mbind option_bind app expect]; rewrite ?Hrefl)).
    by rewrite Hv.
Qed.

(** What the resolver writes is an entry that the loader honours until
    its age exceeds the TTL. *)
Lemma load_saved_cache cache_ttl now later universe_ids :
  valid later = true ->
  _load_cached_universes cache_ttl now
    (_save_cached_universes later universe_ids)
  = Ok (if cache_ttl <? micros now - micros later then None
        else Some (unique universe_ids)).
Proof.
  intros Hv. unfold _save_cached_universes.
  by apply (load_entry cache_ttl now _ (isoformat later) later);
    [| apply fromisoformat_isoformat |].
Qed.

(** After a total failure of discovery, a second resolution within the
    TTL is served from the cache and returns the fallback list again. *)
Lemma fallback_cache_reused cache_ttl discovery fuel now later limit :
  valid later = true ->
  micros now - micros later <= cache_ttl ->
  get_top_universe_ids cache_ttl discovery fuel now now
    (_save_cached_universes later FALLBACK_UNIVERSES) limit
  = Some (Ok (slice_upto limit FALLBACK_UNIVERSES),
          _save_cached_universes later FALLBACK_UNIVERSES).
Proof.
  intros Hv Hage.
  pose proof (load_saved_cache cache_ttl now later FALLBACK_UNIVERSES Hv)
    as Hload.
  destruct (Z.ltb_spec cache_ttl (micros now - micros later)); [lia|].
  rewrite fallback_unique in Hload.
  by rewrite (resolve_after_hit _ _ _ _ _ _ _ _ _ Hload).
Qed.

(** Had the poller opened a transaction, a failure at any point of the
    batch would have left the committed database as it was. *)
Lemma batch_inside_transaction timestamp utcnow c snapshots k :
  transaction c = None ->
  persisted
    (fst (execute_all (begin c)
            (take k (batch_statements timestamp utcnow 0 snapshots))))
  = committed c.
Proof.
  intros Hauto. unfold persisted.
  rewrite transaction_keeps_committed; unfold begin; rewrite Hauto;
    [done | by eexists].
Qed.

(* ================================================================== *)
(** * Further properties of the code *)
(* ================================================================== *)

(** ** Discovery: [_fetch_top_universes] *)

Section Discovery.
Variable discovery : str -> nat -> http_result.

(** The loop over the entries of a page only appends identifiers that
    are new, and stops at [limit]. *)
Lemma collect_entries_grows limit universe_ids entries ids' raised :
  collect_entries limit universe_ids entries = (ids', raised) ->
  NoDup universe_ids ->
  Z.of_nat (length universe_ids) < limit ->
  NoDup ids' /\ Z.of_nat (length ids') <= limit.
Proof.
  revert universe_ids. induction entries as [|entry rest IH];
    intros universe_ids H Hnd Hlen; cbn [collect_entries] in H.
  - injection H as <- <-. split; [done | lia].
  - destruct (_ ≫= _) as [[uid|]|e] in H.
    + destruct (bool_decide_reflect (uid ∈ universe_ids)) as [Hin|Hin];
        [by apply IH in H|].
      assert (NoDup (universe_ids ++ [uid])) as Hnd'.
      { apply NoDup_app. split; [done|]. split; [|apply NoDup_singleton].
        intros x Hx Hx'. apply list_elem_of_singleton in Hx' as ->. done. }
      destruct (Z.leb_spec limit (Z.of_nat (length (universe_ids ++ [uid]))))
        as [Hfull|Hmore].
      * injection H as <- <-. split; [done|]. rewrite length_app in *.
        cbn [length] in *. lia.
      * by apply IH in H.
    + by apply IH in H.
    + injection H as <- <-. split; [done | lia].
Qed.

Lemma page_grows limit universe_ids r ids' more :
  page limit universe_ids r = (ids', more) ->
  NoDup universe_ids ->
  Z.of_nat (length universe_ids) < limit ->
  NoDup ids' /\ Z.of_nat (length ids') <= limit.
Proof.
  unfold page. intros H Hnd Hlen.
  destruct r as [e|status json];
    [injection H as <- <-; split; [done | lia]|].
  destruct (negb (status =? 200));
    [injection H as <- <-; split; [done | lia]|].
  destruct (_ ≫= _) as [[[items cursor]|]|e] in H;
    try (injection H as <- <-; split; [done | lia]).
  destruct (collect_entries limit universe_ids items) as [ids1 raised] eqn:E.
  injection H as <- <-. by eapply collect_entries_grows.
Qed.

Lemma paginate_bounded fuel url n limit universe_ids ids' :
  paginate discovery fuel url n limit universe_ids = Some ids' ->
  NoDup universe_ids ->
  Z.of_nat (length universe_ids) <= Z.max 0 limit ->
  NoDup ids' /\ Z.of_nat (length ids') <= Z.max 0 limit.
Proof.
  revert n universe_ids. induction fuel as [|fuel IH];
    intros n universe_ids H Hnd Hlen; cbn [paginate] in H.
  - destruct (Z.leb_spec limit (Z.of_nat (length universe_ids)));
      [by injection H as <- | done].
  - destruct (Z.leb_spec limit (Z.of_nat (length universe_ids))) as [|Hlt];
      [by injection H as <-|].
    destruct (page limit universe_ids (discovery url n)) as [ids1 more] eqn:E.
    destruct (page_grows _ _ _ _ _ E Hnd Hlt) as [Hnd1 Hlen1].
    destruct more; [apply IH in H; [done | done | lia]|].
    injection H as <-. split; [done | lia].
Qed.

Lemma try_endpoints_bounded fuel urls limit ids' :
  try_endpoints discovery fuel urls limit [] = Some ids' ->
  NoDup ids' /\ Z.of_nat (length ids') <= Z.max 0 limit.
Proof.
  induction urls as [|url urls IH]; cbn [try_endpoints]; intros H.
  - injection H as <-. split; [constructor | cbn; lia].
  - destruct (paginate discovery fuel url 0 limit []) as [ids1|] eqn:E;
      [|done].
    cbn [mbind option_bind] in H.
    destruct ids1 as [|uid ids1]; [by apply IH|]. injection H as <-.
    eapply paginate_bounded; [exact E | constructor | cbn; lia].
Qed.
End Discovery.

(** X1: the list that discovery returns holds no identifier twice and,
    for a [limit] that is not negative, at most [limit] identifiers; for
    a negative [limit] it is empty. *)
Theorem fetch_top_universes_bounded
    (discovery : str -> nat -> http_result) (fuel : nat) (limit : Z)
    (universe_ids : list Z) :
  _fetch_top_universes discovery fuel limit = Some universe_ids ->
  NoDup universe_ids /\ Z.of_nat (length universe_ids) <= Z.max 0 limit.
Proof.
  unfold _fetch_top_universes. revert universe_ids.
  induction POPULAR_ENDPOINTS as [|url urls IH]; intros universe_ids;
    cbn [try_endpoints].
  - intros [= <-]. split; [constructor | cbn; lia].
  - destruct (paginate discovery fuel url 0 limit []) as [ids|] eqn:E;
      [|done].
    cbn [mbind option_bind]. destruct ids as [|uid ids]; [apply IH|].
    intros [= <-].
    eapply paginate_bounded; [exact E | constructor | cbn; lia].
Qed.

Lemma fetch_top_universes_bounded_witness :
  _fetch_top_universes crowded 10 2 = Some [5; 7]
  /\ NoDup [5; 7] /\ Z.of_nat (length [5; 7]) <= Z.max 0 2.
Proof.
  split; [reflexivity|].
  apply (fetch_top_universes_bounded crowded 10 2 [5; 7] eq_refl).
Defined.

Lemma paginate_ext d1 d2 fuel url n limit universe_ids :
  (forall k, d1 url k = d2 url k) ->
  paginate d1 fuel url n limit universe_ids
  = paginate d2 fuel url n limit universe_ids.
Proof.
  intros Heq. revert n universe_ids.
  induction fuel as [|fuel IH]; intros n universe_ids; [done|].
  cbn [paginate]. rewrite Heq.
  destruct (_ <=? _); [done|].
  destruct (page limit universe_ids (d2 url n)) as [ids1 [|]]; [apply IH|done].
Qed.

(** X2: the endpoints are tried in order and the first that yields an
    identifier ends the search: when pagination of the first endpoint
    yields identifiers, the result is that list, whatever the second
    endpoint would answer. *)
Theorem first_endpoint_wins
    (d1 d2 : str -> nat -> http_result) (fuel : nat) (limit : Z)
    (uid : Z) (universe_ids : list Z) :
  (forall k,
     d1 (lit "https://games.roproxy.com/v1/discovery/universes") k
     = d2 (lit "https://games.roproxy.com/v1/discovery/universes") k) ->
  paginate d1 fuel (lit "https://games.roproxy.com/v1/discovery/universes")
    0 limit []
  = Some (uid :: universe_ids) ->
  _fetch_top_universes d1 fuel limit = Some (uid :: universe_ids)
  /\ _fetch_top_universes d2 fuel limit = Some (uid :: universe_ids).
Proof.
  intros Heq H. unfold _fetch_top_universes.
  change POPULAR_ENDPOINTS with
    [ lit "https://games.roproxy.com/v1/discovery/universes";
      lit "https://games.roblox.com/v1/discovery/universes" ].
  cbn [try_endpoints].
  rewrite <- (paginate_ext d1 d2 _ _ _ _ _ Heq), H. done.
Qed.

Lemma first_endpoint_wins_witness :
  _fetch_top_universes crowded 10 2 = Some [5; 7]
  /\ _fetch_top_universes
       (fun url n =>
          if str_eqb url (lit "https://games.roblox.com/v1/discovery/universes")
          then Failed TimeoutError else crowded url n)
       10 2
     = Some [5; 7].
Proof.
  apply (first_endpoint_wins crowded
           (fun url n =>
              if str_eqb url
                   (lit "https://games.roblox.com/v1/discovery/universes")
              then Failed TimeoutError else crowded url n)
           10 2 5 [7]).
  - intros k. reflexivity.
  - reflexivity.
Defined.

(** ** The resolver: [get_top_universe_ids] *)

Lemma slice_upto_length {A} (limit : Z) (l : list A) :
  0 <= limit -> Z.of_nat (length (slice_upto limit l)) <= limit.
Proof.
  intros H. unfold slice_upto. destruct (Z.leb_spec 0 limit); [|lia].
  rewrite length_take. lia.
Qed.

Lemma slice_upto_all {A} (limit : Z) (l : list A) :
  Z.of_nat (length l) <= limit -> slice_upto limit l = l.
Proof.
  intros H. unfold slice_upto. destruct (Z.leb_spec 0 limit); [|lia].
  apply take_ge. lia.
Qed.

(** X3: whatever layer answers (cache, discovery, fallback), a result
    for a [limit] of at least 1 is never empty and never longer than
    [limit]. *)
Theorem resolver_result_bounded
    (cache_ttl : Z) (discovery : str -> nat -> http_result) (fuel : nat)
    (now later : naive) (file file' : cache_file) (limit : Z)
    (universe_ids : list Z) :
  1 <= limit ->
  get_top_universe_ids cache_ttl discovery fuel now later file limit
  = Some (Ok universe_ids, file') ->
  universe_ids <> [] /\ Z.of_nat (length universe_ids) <= limit.
Proof.
  intros Hlimit. unfold get_top_universe_ids.
  destruct (_load_cached_universes cache_ttl now file) as [[[|uid cached]|]|e].
  2:{ intros [= <- _]. split; [by apply slice_upto_nonempty|].
      apply slice_upto_length. lia. }
  3:{ done. }
  all: destruct (_fetch_top_universes discovery fuel limit) as [[|x l]|] eqn:E;
    cbn [mbind option_bind]; intros [= <- _];
    try (split; [by apply slice_upto_nonempty | apply slice_upto_length; lia]);
    (split; [done|]);
    apply try_endpoints_bounded in E as [_ E]; lia.
Qed.

Lemma resolver_result_bounded_witness :
  get_top_universe_ids (timedelta_hours 4) crowded 10 four_o_clock
    four_o_clock Missing 2
  = Some (Ok [5; 7], _save_cached_universes four_o_clock [5; 7])
  /\ ([5; 7] <> [] /\ Z.of_nat (length [5; 7]) <= 2).
Proof.
  split; [reflexivity|].
  apply (resolver_result_bounded (timedelta_hours 4) crowded 10 four_o_clock
           four_o_clock Missing
           (_save_cached_universes four_o_clock [5; 7]) 2 [5; 7]);
    [lia | reflexivity].
Defined.

Lemma filter_keeps_all (x : Z) (l : list Z) :
  x ∉ l -> filter (fun y => y <> x) l = l.
Proof.
  induction l as [|y l IH]; intros Hx; [done|].
  apply not_elem_of_cons in Hx as [Hxy Hx].
  rewrite filter_cons_True by done. by rewrite IH.
Qed.

Lemma unique_of_NoDup l : NoDup l -> unique l = l.
Proof.
  induction 1 as [|x l Hx Hnd IH]; [done|]. cbn [unique].
  by rewrite IH, filter_keeps_all.
Qed.

(** X4: what a resolution writes after a cache miss answers the next
    resolution: within the TTL, a second call with the same [limit]
    returns the same list from the cache, whatever the endpoints would
    answer then, and leaves the file as it is. *)
Theorem resolver_repeats_from_cache
    (cache_ttl : Z) (discovery discovery' : str -> nat -> http_result)
    (fuel fuel' : nat) (now later now' later' : naive)
    (file file' : cache_file) (limit : Z) (universe_ids : list Z) :
  _load_cached_universes cache_ttl now file = Ok None
  \/ _load_cached_universes cache_ttl now file = Ok (Some []) ->
  valid later = true ->
  micros now' - micros later <= cache_ttl ->
  get_top_universe_ids cache_ttl discovery fuel now later file limit
  = Some (Ok universe_ids, file') ->
  get_top_universe_ids cache_ttl discovery' fuel' now' later' file' limit
  = Some (Ok universe_ids, file').
Proof.
  intros Hmiss Hvalid Hage.
  rewrite (resolve_after_miss _ _ _ _ _ _ _ Hmiss).
  unfold resolve_without_cache.
  destruct (_fetch_top_universes discovery fuel limit) as [[|x l]|] eqn:E;
    cbn [mbind option_bind]; intros [= <- <-].
  - pose proof (load_saved_cache cache_ttl now' later FALLBACK_UNIVERSES Hvalid)
      as Hload.
    destruct (Z.ltb_spec cache_ttl (micros now' - micros later)); [lia|].
    rewrite fallback_unique in Hload.
    by rewrite (resolve_after_hit _ _ _ _ _ _ _ _ _ Hload).
  - apply try_endpoints_bounded in E as [Hnd Hlen].
    pose proof (load_saved_cache cache_ttl now' later (x :: l) Hvalid) as Hload.
    destruct (Z.ltb_spec cache_ttl (micros now' - micros later)); [lia|].
    rewrite (unique_of_NoDup _ Hnd) in Hload.
    rewrite (resolve_after_hit _ _ _ _ _ _ _ _ _ Hload).
    rewrite slice_upto_all; [done|]. cbn [length] in *. lia.
Qed.

Lemma resolver_repeats_from_cache_witness :
  get_top_universe_ids (timedelta_hours 4) crowded 10 midnight midnight
    Missing 2
  = Some (Ok [5; 7], _save_cached_universes midnight [5; 7])
  /\ get_top_universe_ids (timedelta_hours 4) unreachable 0 four_o_clock
       four_o_clock (_save_cached_universes midnight [5; 7]) 2
     = Some (Ok [5; 7], _save_cached_universes midnight [5; 7]).
Proof.
  split; [reflexivity|].
  apply (resolver_repeats_from_cache (timedelta_hours 4) crowded unreachable
           10 0 midnight midnight four_o_clock four_o_clock Missing
           (_save_cached_universes midnight [5; 7]) 2 [5; 7]).
  - by left.
  - reflexivity.
  - vm_compute. discriminate.
  - reflexivity.
Defined.

(** X5: the cache file round trip: what [_save_cached_universes] writes,
    [_load_cached_universes] reads back as the same identifiers without
    repetitions, in the order of their first occurrence, as long as the
    age of the file does not exceed the TTL, and as a miss afterwards. *)
Theorem cache_round_trip
    (cache_ttl : Z) (now later : naive) (universe_ids : list Z) :
  valid later = true ->
  _load_cached_universes cache_ttl now
    (_save_cached_universes later universe_ids)
  = Ok (if cache_ttl <? micros now - micros later then None
        else Some (unique universe_ids)).
Proof.
  intros Hvalid. unfold _save_cached_universes.
  apply (load_entry cache_ttl now _ (isoformat later) later).
  - reflexivity.
  - by apply fromisoformat_isoformat.
  - reflexivity.
Qed.

Lemma cache_round_trip_witness :
  valid midnight = true
  /\ _load_cached_universes (timedelta_hours 4) one_o_clock
       (_save_cached_universes midnight [3; 4; 3])
     = Ok (if timedelta_hours 4 <? micros one_o_clock - micros midnight
           then None else Some (unique [3; 4; 3])).
Proof.
  split; [reflexivity|].
  apply (cache_round_trip (timedelta_hours 4) one_o_clock midnight [3; 4; 3]).
  reflexivity.
Defined.

(** ** The poller: [_upsert_metadata] and [poll_top_games] *)





Section Batch.
Variable timestamp : Z.
Variable utcnow : nat -> Z.



End Batch.













Lemma filter_empty_batch timestamp rows :
  List.filter (fun r => negb (in_batch timestamp [] r)) rows = rows.
Proof.
  induction rows as [|r l IH]; [done|]. cbn [List.filter].
  unfold in_batch at 1. rewrite bool_decide_eq_false_2 by apply not_elem_of_nil.
  rewrite andb_false_r. cbn [negb]. by f_equal.
Qed.














(** ** The evaluator: [_read_growth_candidates] *)




(** X11: raising the threshold only removes candidates: every candidate
    found with the higher threshold is found, unchanged, with the lower
    one. *)
Theorem threshold_is_monotone
    (now : Z) (db : Database) (low high : Q) (cand : candidate) :
  (low <= high)%Q ->
  cand ∈ _read_growth_candidates now db high ->
  cand ∈ _read_growth_candidates now db low.
Proof.
  unfold _read_growth_candidates. intros Hle Hcand.
  apply list_elem_of_omap in Hcand as (row & Hrow & Hcand).
  apply list_elem_of_omap. exists row. split; [done|].
  apply candidate_of_row_Some in Hcand as (q & Hq & Hhigh & ->).
  apply candidate_of_row_Some. exists q. repeat split; [done|].
  by apply (Qle_trans _ high).
Qed.

Lemma threshold_is_monotone_witness :
  exists cand,
    (GROWTH_THRESHOLD <= 1)%Q
    /\ cand ∈ _read_growth_candidates today test_db 1
    /\ cand ∈ _read_growth_candidates today test_db GROWTH_THRESHOLD.
Proof.
  eexists. split; [done|].
  assert (forall c, c ∈ _read_growth_candidates today test_db 1 ->
                    c ∈ _read_growth_candidates today test_db 1
                    /\ c ∈ _read_growth_candidates today test_db
                             GROWTH_THRESHOLD) as H.
  { intros c Hc. split; [done|].
    apply (threshold_is_monotone today test_db GROWTH_THRESHOLD 1 c);
      [done | exact Hc]. }
  apply H. left.
Defined.

(** Keys stay distinct under a partial map that keeps them. *)
Lemma NoDup_omap_keys {A B} (ka : A -> Z) (kb : B -> Z) (h : A -> option B)
    (l : list A) :
  (forall a b, h a = Some b -> kb b = ka a) ->
  NoDup (map ka l) -> NoDup (map kb (omap h l)).
Proof.
  intros Hkey. induction l as [|a l IH]; cbn [map omap list_omap]; intros Hnd.
  - constructor.
  - apply NoDup_cons in Hnd as [Ha Hnd]. destruct (h a) as [b|] eqn:E;
      [|by apply IH].
    cbn [map]. constructor; [|by apply IH].
    intros Hin. apply Ha. apply list_elem_of_In, in_map_iff in Hin
      as (b' & Hb' & Hin).
    apply list_elem_of_In, list_elem_of_omap in Hin as (a' & Ha' & E').
    apply list_elem_of_In, in_map_iff. exists a'.
    split; [|by apply list_elem_of_In].
    rewrite <- (Hkey _ _ E'), Hb'. by apply Hkey.
Qed.

Lemma rank_one_NoDup rows : NoDup (map Games.universe_id (rank_one rows)).
Proof.
  unfold rank_one.
  apply (NoDup_omap_keys (fun uid => uid) Games.universe_id).
  - intros uid r H. apply newest_elem, elem_partition in H as [H _]. done.
  - rewrite map_id. apply NoDup_remove_dups.
Qed.

Lemma filter_key_short (k : Z) (l : list Games.row) :
  NoDup (map Games.universe_id l) ->
  (length (filter (fun p => Games.universe_id p = k) l) <= 1)%nat.
Proof.
  induction l as [|r l IH]; cbn [map]; intros Hnd; [cbn; lia|].
  apply NoDup_cons in Hnd as [Hr Hnd].
  destruct (decide (Games.universe_id r = k)) as [Hk|Hk].
  - rewrite filter_cons_True by done. cbn [length].
    assert (filter (fun p => Games.universe_id p = k) l = []) as ->;
      [|cbn; lia].
    clear IH Hnd. induction l as [|r' l IHl]; [done|].
    cbn [map] in Hr. apply not_elem_of_cons in Hr as [Hne Hr].
    rewrite filter_cons_False by congruence. by apply IHl.
  - rewrite filter_cons_False by done. by apply IH.
Qed.

Lemma growth_query_NoDup now db :
  NoDup (map row_universe_id (growth_query now db)).
Proof.
  unfold growth_query.
  pose proof (rank_one_NoDup (games db)) as Hcur.
  pose proof (fun k => filter_key_short k _
                         (rank_one_NoDup
                            (filter (fun r => Games.timestamp r
                                              <= now - 7 * MICROS_PER_DAY)
                                    (games db)))) as Hprev.
  unfold filtered_latest, filtered_week_ago.
  set (prevs := rank_one (filter _ _)) in *.
  induction (rank_one (games db)) as [|cur curs IH]; [constructor|].
  cbn [map] in Hcur. apply NoDup_cons in Hcur as [Hc Hcur].
  rewrite bind_cons, map_app. apply NoDup_app. split; [|split; [|by apply IH]].
  - specialize (Hprev (Games.universe_id cur)).
    destruct (filter _ prevs) as [|p [|p' ps]]; [constructor| |cbn in Hprev; lia].
    rewrite bind_cons. change ([] ≫= _) with (@nil growth_row).
    rewrite app_nil_r.
    destruct (sql_positive (Games.ccu p)); cbn [map];
      [apply NoDup_singleton | constructor].
  - intros k Hk Hk'. apply Hc.
    assert (k = Games.universe_id cur) as ->.
    { apply list_elem_of_In, in_map_iff in Hk as (row & <- & Hrow).
      apply list_elem_of_In, list_elem_of_bind in Hrow as (p & Hrow & _).
      destruct (sql_positive (Games.ccu p)); [|by apply elem_of_nil in Hrow].
      by apply list_elem_of_singleton in Hrow as ->. }
    apply list_elem_of_In, in_map_iff in Hk' as (row & Hrk & Hrow).
    apply list_elem_of_In, list_elem_of_bind in Hrow as (cur' & Hrow & Hcur').
    apply list_elem_of_bind in Hrow as (p & Hrow & _).
    destruct (sql_positive (Games.ccu p)); [|by apply elem_of_nil in Hrow].
    apply list_elem_of_singleton in Hrow as ->. cbn [row_universe_id] in Hrk.
    rewrite <- Hrk. by apply list_elem_of_In, in_map, list_elem_of_In.
Qed.

(** X12: the evaluator returns at most one candidate for a universe,
    however many snapshots the universe has. *)
Theorem one_candidate_per_universe
    (now : Z) (db : Database) (threshold : Q) :
  NoDup (map Detector.universe_id (_read_growth_candidates now db threshold)).
Proof.
  unfold _read_growth_candidates.
  apply (NoDup_omap_keys row_universe_id Detector.universe_id).
  - intros row cand H.
    apply candidate_of_row_Some in H as (q & _ & _ & ->). done.
  - apply growth_query_NoDup.
Qed.

(** ** Detection: [detect_mechanic_spikes] *)

Lemma spike_of_Some partial_ratio now c video spike :
  spike_of partial_ratio now c video = Some spike ->
  Videos.title video = Some (Spike.video_title spike)
  /\ Spike.video_title spike <> []
  /\ _video_matches_game partial_ratio (game_name c) (Spike.video_title spike)
     = true
  /\ spike
     = {| Spike.universe_id := Detector.universe_id c;
          Spike.game_name := game_name c;
          Spike.current_ccu := current_ccu c;
          Spike.week_ago_ccu := week_ago_ccu c;
          Spike.growth_percent := growth_percent c;
          Spike.published_at := Videos.published_at video;
          Spike.mechanic := _extract_mechanic (Spike.video_title spike);
          Spike.video_title := Spike.video_title spike;
          Spike.video_url :=
            lit "https://youtube.com/watch?v=" ++ Videos.video_id video;
          Spike.channel_title := Videos.channel_title video;
          Spike.detected_at := now |}.
Proof.
  unfold spike_of. destruct (Videos.title video) as [[|ch title]|]; try done.
  cbn [default from_option id Detector.is_empty].
  destruct (_video_matches_game _ _ _) eqn:E; [|done].
  cbn [negb]. intros [= <-]. done.
Qed.

(** X13: where every detected spike comes from. It pairs a candidate of
    the evaluator with a stored video that has a title, was published
    within the lookback window, and matches the name of the candidate;
    it copies the metrics of the candidate, the label is extracted from
    the title and has at most 120 characters, the URL is the watch URL
    of the video, and [detected_at] is the time of the run. *)
Theorem spike_is_sound
    (partial_ratio : str -> str -> Q) (now : Z) (db : Database)
    (lookback_hours : Z) (growth_threshold : Q) (persist : bool)
    (spike : Spike.MechanicSpike) :
  spike ∈ fst (detect_mechanic_spikes partial_ratio now db lookback_hours
                 growth_threshold persist) ->
  exists cand video published,
    cand ∈ _read_growth_candidates now db growth_threshold
    /\ video ∈ youtube_videos db
    /\ Videos.title video = Some (Spike.video_title spike)
    /\ Spike.video_title spike <> []
    /\ Videos.published_at video = Some published
    /\ now - lookback_hours * MICROS_PER_HOUR <= published
    /\ _video_matches_game partial_ratio (game_name cand)
         (Spike.video_title spike) = true
    /\ Spike.universe_id spike = Detector.universe_id cand
    /\ Spike.game_name spike = game_name cand
    /\ Spike.current_ccu spike = current_ccu cand
    /\ Spike.week_ago_ccu spike = week_ago_ccu cand
    /\ Spike.growth_percent spike = growth_percent cand
    /\ Spike.published_at spike = Some published
    /\ Spike.mechanic spike = _extract_mechanic (Spike.video_title spike)
    /\ (length (Spike.mechanic spike) <= 120)%nat
    /\ Spike.video_url spike
       = lit "https://youtube.com/watch?v=" ++ Videos.video_id video
    /\ Spike.channel_title spike = Videos.channel_title video
    /\ Spike.detected_at spike = now.
Proof.
  unfold detect_mechanic_spikes.
  destruct (_read_growth_candidates now db growth_threshold) as [|c0 cs] eqn:E.
  { intros H. by apply elem_of_nil in H. }
  cbn [fst]. unfold correlate. intros H.
  apply list_elem_of_bind in H as (cand & H & Hcand).
  apply list_elem_of_omap in H as (video & Hvideo & H).
  unfold _fetch_recent_videos in Hvideo.
  apply list_elem_of_In, List.filter_In in Hvideo as [Hvideo Hrecent].
  apply list_elem_of_In in Hvideo.
  destruct (Videos.published_at video) as [published|] eqn:Hp; [|done].
  apply Z.leb_le in Hrecent.
  apply spike_of_Some in H as (Htitle & Hne & Hmatch & Hspike).
  exists cand, video, published.
  destruct spike as [uid gname cur prev growth pub mech vtitle url chan det].
  cbn [Spike.universe_id Spike.game_name Spike.current_ccu Spike.week_ago_ccu
       Spike.growth_percent Spike.published_at Spike.mechanic Spike.video_url
       Spike.video_title Spike.channel_title Spike.detected_at] in *.
  injection Hspike as -> -> -> -> -> -> Hmech -> -> ->.
  repeat split; try done.
  rewrite Hmech. unfold _extract_mechanic.
  destruct (MECHANIC_REGEX_search _); apply slice_to_length.
Qed.

Lemma spike_is_sound_witness :
  exists spike,
    spike ∈ fst (detect_mechanic_spikes no_similarity today test_db 48
                   GROWTH_THRESHOLD false)
    /\ Spike.video_title spike <> []
    /\ (length (Spike.mechanic spike) <= 120)%nat.
Proof.
  eexists. split; [left|].
  match goal with
  | |- context [Spike.mechanic ?s] =>
      destruct (spike_is_sound no_similarity today test_db 48 GROWTH_THRESHOLD
                  false s ltac:(left))
        as (cand & video & published & _ & _ & _ & H1 & _ & _ & _ & _ & _ & _
            & _ & _ & _ & _ & H2 & _)
  end.
  split; [exact H1 | exact H2].
Defined.




(** ** The label: [_extract_mechanic] *)

Lemma lstrip_suffix s : exists a, s = a ++ lstrip s.
Proof. exists (take_while isspace s). by rewrite take_drop_while. Qed.

Lemma rstrip_prefix s : exists b, s = rstrip s ++ b.
Proof.
  unfold rstrip. exists (rev (take_while isspace (rev s))).
  rewrite <- rev_app_distr, take_drop_while. by rewrite rev_involutive.
Qed.

Lemma strip_substring s : substring (strip s) s.
Proof.
  unfold strip. destruct (lstrip_suffix s) as [a Ha].
  destruct (rstrip_prefix (lstrip s)) as [b Hb].
  exists a, b. by rewrite <- Hb.
Qed.

Lemma substring_trans a b c : substring a b -> substring b c -> substring a c.
Proof.
  intros (p1 & q1 & ->) (p2 & q2 & ->). exists (p2 ++ p1), (q1 ++ q2).
  by rewrite <- !app_assoc.
Qed.

Lemma slice_to_substring n s : substring (slice_to n s) s.
Proof.
  exists [], (drop n s). unfold slice_to. cbn [app]. by rewrite take_drop.
Qed.

Lemma forallb_app_l {A} (p : A -> bool) l1 l2 :
  forallb p (l1 ++ l2) = true -> forallb p l1 = true /\ forallb p l2 = true.
Proof. rewrite forallb_app. apply andb_true_iff. Qed.

Lemma forallb_substring p a b :
  substring a b -> forallb p b = true -> forallb p a = true.
Proof.
  intros (pre & post & ->) H.
  apply forallb_app_l in H as [_ H]. by apply forallb_app_l in H as [H _].
Qed.

(** X15: the label is cut out of the title: it is always a contiguous
    part of the title, so extraction never invents text; and when a
    trigger keyword occurs in the title, the label stays on one line and
    does not start with a white-space character. *)
Theorem label_is_part_of_title (title : str) :
  substring (_extract_mechanic title) title
  /\ match MECHANIC_REGEX_search title with
     | Some _ =>
         forallb is_dot (_extract_mechanic title) = true
         /\ forall c, head (_extract_mechanic title) = Some c ->
                      isspace c = false
     | None => True
     end.
Proof.
  unfold _extract_mechanic.
  destruct (MECHANIC_REGEX_search title) as [g|] eqn:E;
    [|split; [apply slice_to_substring | done]].
  destruct (search_Some _ _ E) as (pre & (kw & seps & rest & -> & _ & _ & _
                                          & Hdot & _) & _).
  assert (substring (slice_to 120 (strip g)) g) as Hsub
    by (eapply substring_trans; [apply slice_to_substring
                                | apply strip_substring]).
  split; [|split].
  - eapply substring_trans; [exact Hsub|].
    exists (pre ++ kw ++ seps), rest. by rewrite <- !app_assoc.
  - by eapply forallb_substring.
  - intros c Hc. unfold strip, rstrip, slice_to in Hc.
    destruct (lstrip g) as [|c0 s0] eqn:Hl; [done|].
    assert (isspace c0 = false) as Hc0
      by (apply (drop_while_head isspace g); unfold lstrip in Hl;
          by rewrite Hl).
    destruct (rstrip_prefix (c0 :: s0)) as [b Hb]. unfold rstrip in Hb.
    destruct (rev (drop_while isspace (rev (c0 :: s0)))) as [|c1 s1].
    + done.
    + cbn in Hc. injection Hc as <-. injection Hb as -> _. done.
Qed.

(** ** The stored spikes: [get_historical_spikes] *)

Lemma insert_desc_perm s l : insert_desc s l ≡ₚ s :: l.
Proof.
  induction l as [|x l IH]; cbn [insert_desc]; [done|].
  destruct (_ <? _); [done|]. rewrite IH. apply Permutation_swap.
Qed.

Lemma order_by_perm rows : order_by_detected_desc rows ≡ₚ rows.
Proof.
  induction rows as [|s rows IH]; [done|]. cbn.
  rewrite insert_desc_perm. by constructor.
Qed.

Lemma insert_desc_sorted s l :
  StronglySorted newer_first l -> StronglySorted newer_first (insert_desc s l).
Proof.
  induction 1 as [|x l Hsorted IH Hall]; cbn [insert_desc].
  - repeat constructor.
  - destruct (Z.ltb_spec (Spike.detected_at x) (Spike.detected_at s)).
    + constructor; [by constructor|]. constructor; [unfold newer_first; lia|].
      eapply Forall_impl; [exact Hall|]. unfold newer_first. intros y. lia.
    + constructor; [done|].
      rewrite insert_desc_perm.
      constructor; [unfold newer_first; lia | done].
Qed.

Lemma order_by_sorted rows :
  StronglySorted newer_first (order_by_detected_desc rows).
Proof.
  induction rows as [|s rows IH]; [constructor|]. by apply insert_desc_sorted.
Qed.

(** X16: the history is the head of the spike table ordered from the
    latest detection to the earliest: its rows and the rows it leaves
    out are together the rows of the table, none is detected later than
    a row before it, and its length is [limit], or that of the table
    when the table is shorter. *)
Theorem history_is_newest_first (db : Database) (limit : nat) :
  exists rest,
    get_historical_spikes db limit ++ rest ≡ₚ mechanic_spikes db
    /\ StronglySorted newer_first (get_historical_spikes db limit ++ rest)
    /\ length (get_historical_spikes db limit)
       = Nat.min limit (length (mechanic_spikes db)).
Proof.
  unfold get_historical_spikes.
  exists (drop limit (order_by_detected_desc (mechanic_spikes db))).
  rewrite take_drop. split; [apply order_by_perm|].
  split; [apply order_by_sorted|].
  rewrite length_take. by rewrite (Permutation_length (order_by_perm _)).
Qed.




(** ** Studios: [add_studio] *)















(** X19: two names with the same derived key are one studio: the second
    registration replaces the first, whose credentials are gone; the
    table is as if only the second had been made, and every other
    studio keeps its row. *)
Theorem same_key_replaces_studio
    (table : gmap str Studio.row)
    (name1 token1 database1 name2 token2 database2 : str)
    (topic1 topic2 : option str) :
  Studio.studio_id name1 = Studio.studio_id name2 ->
  let once := Studio.add_studio table name2 token2 database2 topic2 in
  let twice :=
    Studio.add_studio (Studio.add_studio table name1 token1 database1 topic1)
      name2 token2 database2 topic2 in
  twice = once
  /\ twice !! Studio.studio_id name1
     = Some {| Studio.name := Some name2;
               Studio.notion_token := Some token2;
               Studio.notion_database_id := Some database2;
               Studio.ntfy_topic := topic2 |}
  /\ forall key, key <> Studio.studio_id name1 -> twice !! key = table !! key.
Proof.
  intros Hkey. cbn zeta. unfold Studio.add_studio. rewrite Hkey.
  split; [apply insert_insert_eq|]. split; [apply lookup_insert_eq|].
  intros key Hne. by rewrite !lookup_insert_ne.
Qed.

Lemma same_key_replaces_studio_witness :
  Studio.studio_id (lit "My Studio") = Studio.studio_id (lit "  my-studio ")
  /\ Studio.add_studio (Studio.add_studio ∅ (lit "My Studio") (lit "secret-1")
                          (lit "db-1") None)
       (lit "  my-studio ") (lit "secret-2") (lit "db-2") (Some (lit "topic"))
     = Studio.add_studio ∅ (lit "  my-studio ") (lit "secret-2") (lit "db-2")
         (Some (lit "topic")).
Proof.
  split; [reflexivity|].
  apply (same_key_replaces_studio ∅ (lit "My Studio") (lit "secret-1")
           (lit "db-1") (lit "  my-studio ") (lit "secret-2") (lit "db-2")
           None (Some (lit "topic"))).
  reflexivity.
Defined.

(** ** Creator videos: [collect_creator_videos] *)

Ltac ok_binds H :=
  repeat
    match type of H with
    | (mbind _ ?x) = _ =>
        destruct x eqn:?; cbn [mbind result_bind bind] in H;
        [| discriminate H]
    end.

Lemma joinable_strings ids strs :
  map_result Collector.joinable ids = Ok strs -> ids = map VStr strs.
Proof.
  revert strs. induction ids as [|v ids IH]; intros strs H.
  - cbn in H. by injection H as <-.
  - cbn [map_result] in H. destruct v; try discriminate.
    cbn [Collector.joinable mbind result_bind bind] in H.
    destruct (map_result Collector.joinable ids) as [bs|] eqn:E; [|discriminate].
    cbn in H. injection H as <-. cbn. f_equal. by apply IH.
Qed.

Lemma record_of_id channel fetched stats item r :
  Collector.record_of channel fetched stats item = Ok r ->
  exists idv v,
    get_default item "id" (VDict []) = Ok idv /\ get idv "videoId" = Ok v
    /\ match r with
       | Some record =>
           truthy v = true /\ Collector.video_id record = v
           /\ Collector.fetched_at record = fetched
       | None => truthy v = false
       end.
Proof.
  unfold Collector.record_of. intros H.
  destruct (get_default item "id" (VDict [])) as [idv|];
    cbn [mbind result_bind bind] in H; [|discriminate H].
  destruct (get idv "videoId") as [v|] eqn:Ev;
    cbn [mbind result_bind bind] in H; [|discriminate H].
  exists idv, v. do 2 (split; [done|]).
  destruct (truthy v); cbn [negb] in H.
  - ok_binds H. by injection H as <-.
  - by injection H as <-.
Qed.

Lemma records_match_ids channel fetched stats items strs records :
  Collector.searched_ids items = Ok (map VStr strs) ->
  Collector.records_of channel fetched stats items = Ok records ->
  map Collector.video_id records = map VStr (filter (fun s => s <> []) strs)
  /\ Forall (fun r => Collector.fetched_at r = fetched) records.
Proof.
  revert strs records. induction items as [|item items IH]; intros strs records Hs Hr.
  - cbn in Hs, Hr. injection Hr as <-. destruct strs; [|discriminate]. by split.
  - cbn [Collector.searched_ids Collector.records_of] in Hs, Hr.
    ok_binds Hr. injection Hr as <-.
    match goal with
    | E : Collector.record_of _ _ _ _ = _ |- _ =>
        apply record_of_id in E as (idv & v & Hid & Hv & Hrec)
    end.
    destruct item as [| | | | | |d]; try discriminate.
    change (get (VDict d) "id")
      with (Ok (default VNone (lookup_key (lit "id") d))) in Hs.
    unfold get_default in Hid.
    cbn [mbind result_bind bind] in Hs.
    destruct (lookup_key (lit "id") d) as [c|]; cbn [from_option] in Hs, Hid;
      unfold id in Hs, Hid; injection Hid as <-.
    + destruct (truthy c) eqn:Ec.
      * rewrite Hv in Hs. cbn [mbind result_bind bind] in Hs.
        destruct (Collector.searched_ids items) as [vs|] eqn:Evs; [|done].
        cbn [bind] in Hs. destruct strs as [|s strs]; [done|].
        injection Hs as -> ->.
        destruct (IH strs a0 eq_refl eq_refl) as [IHa IHb].
        rewrite filter_cons. destruct a as [record|].
        -- destruct Hrec as (Ht & Hvid & Hf). cbn in Ht.
           destruct s; [done|]. rewrite decide_True by done.
           cbn. rewrite Hvid, IHa. split; [done|]. by constructor.
        -- cbn in Hrec. destruct s; [|done]. by rewrite decide_False by tauto.
      * destruct a as [record|].
        -- destruct Hrec as (Ht & _). unfold get, get_default in Hv.
           destruct c; try done. destruct d0; [|done]. injection Hv as <-. done.
        -- by apply IH.
    + unfold get, get_default in Hv. cbn in Hv. injection Hv as <-.
      destruct a as [record|]; [by destruct Hrec|]. by apply IH.
Qed.

(** X20: the records of a channel follow its search result. When the
    collection returns, every item with a truthy [id] held a string
    under [videoId], and the records carry, in the order of the search
    items, exactly the non-empty ones of these identifiers; all
    records bear the one instant taken after the statistics arrived. *)
Theorem records_follow_search key search videos now channel max_results
    payload items records :
  Collector.fetch_recent_video_ids key search channel max_results
  = Collector.Done payload ->
  iterate payload = Ok items ->
  Collector.collect_creator_videos key search videos now channel max_results
  = Collector.Done records ->
  exists ids,
    Collector.searched_ids items = Ok (map VStr ids)
    /\ map Collector.video_id records
       = map VStr (filter (fun s => s <> []) ids)
    /\ Forall (fun r => Collector.fetched_at r = Aware now 0) records.
Proof.
  intros Hf Hi. unfold Collector.collect_creator_videos. rewrite Hf.
  cbn [mbind Collector.outcome_bind]. rewrite Hi.
  change (Collector.lift (Ok items)) with (Collector.Done items).
  cbn [mbind Collector.outcome_bind].
  destruct (Collector.searched_ids items) as [ids|] eqn:Eids; [|discriminate].
  change (Collector.lift (Ok ids)) with (Collector.Done ids).
  cbn [mbind Collector.outcome_bind]. intros H.
  assert (exists strs, ids = map VStr strs) as [strs ->].
  { destruct ids as [|v ids]; [by exists []|].
    unfold Collector.fetch_video_statistics in H.
    destruct (Collector._require_api_key key);
      cbn [mbind Collector.outcome_bind] in H; [|discriminate H].
    destruct (map_result Collector.joinable (v :: ids)) as [strs|] eqn:E;
      [|discriminate H].
    exists strs. by apply joinable_strings. }
  exists strs. split; [done|].
  destruct (Collector.fetch_video_statistics key videos (map VStr strs))
    as [stats|]; cbn [mbind Collector.outcome_bind] in H; [|discriminate H].
  destruct (Collector.records_of channel (Aware now 0) stats items)
    as [rs|] eqn:Er; [|discriminate H].
  injection H as <-. by apply (records_match_ids channel _ stats items).
Qed.

Lemma records_follow_search_witness :
  Collector.fetch_recent_video_ids Uploads.api_key Uploads.search_videos
    (lit "UC1") 5
  = Collector.Done (VList Uploads.two_videos)
  /\ exists records,
       Collector.collect_creator_videos Uploads.api_key Uploads.search_videos
         Uploads.statistics Uploads.noon (lit "UC1") 5
       = Collector.Done records
       /\ exists ids,
            Collector.searched_ids Uploads.two_videos = Ok (map VStr ids)
            /\ map Collector.video_id records
               = map VStr (filter (fun s => s <> []) ids)
            /\ Forall (fun r => Collector.fetched_at r
                                = Aware Uploads.noon 0) records.
Proof.
  split; [reflexivity|]. eexists. split; [reflexivity|].
  apply (records_follow_search Uploads.api_key Uploads.search_videos
           Uploads.statistics Uploads.noon (lit "UC1") 5
           (VList Uploads.two_videos) Uploads.two_videos);
    reflexivity.
Defined.

Lemma searched_ids_total items :
  Forall (fun i => Collector.well_formed i = true) items ->
  exists ids, Collector.searched_ids items = Ok ids.
Proof.
  induction 1 as [|item items Hw _ [ids IH]]; [by exists []|].
  cbn [Collector.searched_ids]. rewrite IH.
  destruct item as [| | | | | |d]; try discriminate.
  change (get (VDict d) "id")
    with (Ok (default VNone (lookup_key (lit "id") d))).
  cbn [Collector.well_formed] in Hw. cbn [mbind result_bind bind].
  destruct (lookup_key (lit "id") d) as [[| | | | | |c]|]; try discriminate;
    cbn [from_option]; unfold id.
  - destruct c; cbn; eauto.
  - cbn; eauto.
Qed.

Lemma searched_ids_lacking items :
  Forall (fun i => Collector.well_formed i = true) items ->
  Exists (fun i => Collector.lacks_video_id i = true) items ->
  exists ids,
    Collector.searched_ids items = Ok ids
    /\ Exists (fun v => forall s, v <> VStr s) ids.
Proof.
  induction 1 as [|item items Hw Hws IH]; intros Hex;
    [by apply Exists_nil in Hex|].
  destruct (searched_ids_total items Hws) as [vs Hvs].
  apply Exists_cons in Hex.
  cbn [Collector.searched_ids]. rewrite Hvs.
  destruct item as [| | | | | |d]; try discriminate.
  change (get (VDict d) "id")
    with (Ok (default VNone (lookup_key (lit "id") d))).
  cbn [Collector.well_formed Collector.lacks_video_id] in Hw, Hex.
  cbn [mbind result_bind bind].
  destruct (lookup_key (lit "id") d) as [[| | | | | |c]|]; try discriminate;
    cbn [from_option]; unfold id.
  - destruct c as [|kv c].
    + cbn [truthy]. destruct Hex as [Hex|Hex]; [done|].
      destruct (IH Hex) as (ids & Hids & Hno).
      rewrite Hvs in Hids. injection Hids as <-. eauto.
    + cbn [truthy get get_default mbind result_bind bind].
      eexists. split; [done|].
      destruct Hex as [Hex|Hex].
      * apply Exists_cons_hd. intros s Hs.
        destruct (lookup_key (lit "videoId") (kv :: c)) as [v|];
          cbn [from_option] in Hs; unfold id in Hs; [|done].
        by rewrite Hs in Hex.
      * apply Exists_cons_tl. destruct (IH Hex) as (ids & Hids & Hno).
        rewrite Hvs in Hids. by injection Hids as <-.
  - cbn [truthy]. destruct Hex as [Hex|Hex]; [done|].
    destruct (IH Hex) as (ids & Hids & Hno).
    rewrite Hvs in Hids. injection Hids as <-. eauto.
Qed.

Lemma joinable_raises ids :
  Exists (fun v => forall s, v <> VStr s) ids ->
  map_result Collector.joinable ids = Raise TypeError.
Proof.
  induction 1 as [v ids Hv|v ids _ IH]; cbn [map_result].
  - destruct v; try done. by destruct (Hv s).
  - rewrite IH. by destruct v.
Qed.

(** X21: one hit without a video identifier loses the channel. When
    the search items are objects whose [id] is absent or an object, and
    one of them has a non-empty [id] without a string [videoId], the
    collection raises [TypeError] when it joins the identifiers: the
    [continue] of the loop is never reached and no record is
    returned. *)
Theorem missing_video_id_aborts_channel key search videos now channel
    max_results payload items :
  Collector.fetch_recent_video_ids key search channel max_results
  = Collector.Done payload ->
  iterate payload = Ok items ->
  Forall (fun i => Collector.well_formed i = true) items ->
  Exists (fun i => Collector.lacks_video_id i = true) items ->
  Collector.collect_creator_videos key search videos now channel max_results
  = Collector.Fail (Collector.Python TypeError).
Proof.
  intros Hf Hi Hw Hex. unfold Collector.collect_creator_videos. rewrite Hf.
  cbn [mbind Collector.outcome_bind]. rewrite Hi.
  change (Collector.lift (Ok items)) with (Collector.Done items).
  cbn [mbind Collector.outcome_bind].
  destruct (searched_ids_lacking items Hw Hex) as (ids & -> & Hno).
  change (Collector.lift (Ok ids)) with (Collector.Done ids).
  cbn [mbind Collector.outcome_bind].
  unfold Collector.fetch_video_statistics.
  unfold Collector.fetch_recent_video_ids in Hf.
  destruct (Collector._require_api_key key) as [k|]; [|done].
  rewrite (joinable_raises ids Hno).
  by destruct Hno.
Qed.

Lemma missing_video_id_aborts_channel_witness :
  Forall (fun i => Collector.well_formed i = true) Uploads.mixed_hits
  /\ Exists (fun i => Collector.lacks_video_id i = true) Uploads.mixed_hits
  /\ Collector.collect_creator_videos Uploads.api_key Uploads.search_mixed
       Uploads.statistics Uploads.noon (lit "UC1") 5
     = Collector.Fail (Collector.Python TypeError).
Proof.
  assert (Forall (fun i => Collector.well_formed i = true) Uploads.mixed_hits)
    as Hw by (repeat constructor).
  assert (Exists (fun i => Collector.lacks_video_id i = true)
            Uploads.mixed_hits)
    as Hex by (apply Exists_cons_tl, Exists_cons_hd; reflexivity).
  split; [exact Hw|]. split; [exact Hex|].
  apply (missing_video_id_aborts_channel Uploads.api_key Uploads.search_mixed
           Uploads.statistics Uploads.noon (lit "UC1") 5
           (VList Uploads.mixed_hits) Uploads.mixed_hits);
    [reflexivity | reflexivity | exact Hw | exact Hex].
Defined.

Lemma replace_Z_pad w z : Collector.replace_Z (pad w z) = pad w z.
Proof.
  revert z. induction w as [|w IH]; intros z; [done|].
  cbn [pad]. unfold Collector.replace_Z in *. rewrite flat_map_app, IH.
  f_equal. cbn [flat_map].
  pose proof (Z.mod_pos_bound z 10 ltac:(lia)) as Hm.
  assert (exists k, z mod 10 = Z.of_nat k /\ (k < 10)%nat) as (k & -> & Hk).
  { exists (Z.to_nat (z mod 10)). lia. }
  do 10 (destruct k as [|k]; [reflexivity|]). lia.
Qed.

Lemma replace_Z_isoformat n :
  Collector.replace_Z (isoformat n ++ lit "Z") = isoformat n ++ lit "+00:00".
Proof.
  unfold isoformat.
  assert (forall a b, Collector.replace_Z (a ++ b)
                      = Collector.replace_Z a ++ Collector.replace_Z b) as Happ
    by (intros; apply flat_map_app).
  rewrite !Happ, !replace_Z_pad.
  destruct (microsecond n =? 0); [reflexivity|].
  by rewrite Happ, replace_Z_pad.
Qed.

(** X22: the timestamps of the API, which end in [Z], are read as UTC:
    for a valid date and time the fallback to [fetched_at] is not
    taken. *)
Theorem z_suffix_is_utc fetched n :
  valid n = true ->
  Collector.parse_published fetched (VStr (isoformat n ++ lit "Z"))
  = Aware n 0.
Proof.
  intros Hv. unfold Collector.parse_published.
  rewrite replace_Z_isoformat.
  destruct (valid_bounds n Hv) as (Hy & Hmo & Hd & Hh & Hmi & Hs & Hus).
  unfold fromisoformat, parse_isoformat, isoformat.
  change (lit "-") with ["-"%char]. change (lit "T") with ["T"%char].
  change (lit ":") with [":"%char]. change (lit ".") with ["."%char].
  destruct n as [y mo d h mi sec us]. cbn [year month day hour minute second
    microsecond] in *.
  assert (forall c, ascii_eqb c c = true) as Hrefl
    by (intros c; apply Ascii.eqb_refl).
  unfold clock_fields, fraction.
  rewrite <- !app_assoc.
  destruct (Z.eqb_spec us 0) as [->|Hne].
  - repeat (rewrite digits_pad0 by done;
            repeat (cbn [mbind option_bind app expect]; rewrite ?Hrefl)).
    change (expect "." (lit "+00:00")) with (@None str).
    cbn [mbind option_bind]. rewrite Hv. reflexivity.
  - rewrite <- !app_assoc.
    repeat (rewrite digits_pad0 by done;
            repeat (cbn [mbind option_bind app expect]; rewrite ?Hrefl)).
    rewrite Hv. reflexivity.
Qed.

Lemma z_suffix_is_utc_witness :
  valid Uploads.noon = true
  /\ Collector.parse_published (Naive midnight)
       (VStr (isoformat Uploads.noon ++ lit "Z"))
     = Aware Uploads.noon 0.
Proof.
  split; [reflexivity|].
  apply (z_suffix_is_utc (Naive midnight) Uploads.noon). reflexivity.
Defined.

(** ** The dashboard: [load_top_movers] *)









(** ** The report: [format_spikes_table] *)

Lemma ljust_length width cell :
  (length cell <= width)%nat -> length (Report.ljust width cell) = width.
Proof.
  intros H. unfold Report.ljust. rewrite length_app, length_replicate. lia.
Qed.

Lemma line_length widths row :
  Forall2 (fun w cell => (length cell <= w)%nat) widths row ->
  length (Report.line widths row)
  = length (Report.join (lit " | ")
              (map (fun w => replicate w " "%char) widths)).
Proof.
  unfold Report.line.
  induction 1 as [|w cell widths row Hle Hrest IH]; [done|].
  cbn [zip_with map Report.join].
  destruct Hrest as [|w' cell' widths row Hle' Hrest].
  - cbn [zip_with map]. rewrite ljust_length, length_replicate; done.
  - cbn [zip_with map] in *. rewrite !length_app, IH.
    by rewrite ljust_length, length_replicate.
Qed.

Lemma col_width_bound rows row idx :
  row ∈ rows -> (length (nth idx row []) <= Report.col_width rows idx)%nat.
Proof.
  unfold Report.col_width. induction 1 as [row rows|row r rows _ IH]; cbn; lia.
Qed.

Lemma col_widths_fit rows row :
  row ∈ rows -> length row = length Report.headers ->
  Forall2 (fun w cell => (length cell <= w)%nat) (Report.col_widths rows) row.
Proof.
  intros Hin Hlen. unfold Report.col_widths.
  apply Forall2_same_length_lookup_2.
  - by rewrite length_map, length_seq.
  - intros idx w cell Hw Hcell.
    rewrite list_lookup_fmap in Hw.
    destruct (seq 0 (length Report.headers) !! idx) as [i|] eqn:Ei; [|done].
    apply lookup_seq in Ei as [-> _]. injection Hw as <-.
    rewrite <- (nth_lookup_Some _ _ [] _ Hcell).
    by apply col_width_bound.
Qed.

Lemma cells_length fp ft st spike row :
  Report.cells fp ft st spike = Ok row -> length row = length Report.headers.
Proof.
  unfold Report.cells. destruct (Spike.published_at spike); [|done].
  by intros [= <-].
Qed.

Lemma body_length fp ft st spikes body :
  map_result (Report.cells fp ft st) spikes = Ok body ->
  length body = length spikes
  /\ Forall (fun row => length row = length Report.headers) body.
Proof.
  revert body. induction spikes as [|s spikes IH]; intros body H.
  - injection H as <-. by split.
  - cbn [map_result] in H.
    destruct (Report.cells fp ft st s) as [row|] eqn:Erow; [|done].
    cbn [mbind result_bind bind] in H.
    destruct (map_result (Report.cells fp ft st) spikes) as [rows|];
      [|done].
    cbn [bind] in H. injection H as <-.
    destruct (IH rows eq_refl) as [IHa IHb].
    split; [cbn; by rewrite IHa|].
    constructor; [by eapply cells_length|done].
Qed.

Lemma table_lines_rectangular fp ft st spikes lines :
  Report.table_lines fp ft st spikes = Ok lines ->
  length lines = (2 + length spikes)%nat
  /\ exists width, Forall (fun l => length l = width) lines.
Proof.
  unfold Report.table_lines. intros H.
  destruct (map_result (Report.cells fp ft st) spikes) as [body|] eqn:Ebody;
    [|done].
  cbn [mbind result_bind bind] in H.
  set (rows := Report.headers :: Report.rule :: body) in H.
  assert (lines = map (Report.line (Report.col_widths rows)) rows) as ->
    by congruence.
  clear H. apply body_length in Ebody as [Hlen Hrows].
  split; [rewrite length_map; cbn [rows length]; by rewrite Hlen|].
  exists (length (Report.join (lit " | ")
                    (map (fun w => replicate w " "%char)
                         (Report.col_widths rows)))).
  apply Forall_map, Forall_forall. intros row Hrow. cbn beta.
  apply line_length, col_widths_fit; [done|].
  unfold rows in Hrow.
  apply elem_of_cons in Hrow as [->|Hrow]; [done|].
  apply elem_of_cons in Hrow as [->|Hrow]; [done|].
  by apply (proj1 (Forall_forall _ _) Hrows).
Qed.

Lemma cells_total fp ft st spikes :
  Forall (fun s => is_Some (Spike.published_at s)) spikes ->
  exists body, map_result (Report.cells fp ft st) spikes = Ok body.
Proof.
  induction 1 as [|s spikes [t Ht] _ [body IH]]; [by exists []|].
  assert (exists row, Report.cells fp ft st s = Ok row) as [row Hrow]
    by (unfold Report.cells; rewrite Ht; eauto).
  cbn [map_result]. rewrite Hrow, IH.
  cbn [mbind result_bind bind]. eauto.
Qed.

Lemma table_lines_total fp ft st spikes :
  Forall (fun s => is_Some (Spike.published_at s)) spikes ->
  exists lines, Report.table_lines fp ft st spikes = Ok lines.
Proof.
  intros H. destruct (cells_total fp ft st spikes H) as [body Hbody].
  unfold Report.table_lines. rewrite Hbody.
  cbn [mbind result_bind bind]. eauto.
Qed.

(** X24: the report is a rectangle. For spikes that all have a
    publication time the table is produced, it has a header line, a
    rule and one line for each spike, and all its lines have the same
    length, whatever the cells hold. *)
Theorem table_is_rectangular fp ft st spikes :
  Forall (fun s => is_Some (Spike.published_at s)) spikes ->
  exists lines width,
    Report.table_lines fp ft st spikes = Ok lines
    /\ length lines = (2 + length spikes)%nat
    /\ Forall (fun l => length l = width) lines.
Proof.
  intros H. destruct (table_lines_total fp ft st spikes H) as [lines Hlines].
  destruct (table_lines_rectangular fp ft st spikes lines Hlines)
    as [Hlen [width Hwidth]].
  by exists lines, width.
Qed.

Lemma table_is_rectangular_witness :
  Forall (fun s => is_Some (Spike.published_at s)) [Scenarios.old_spike]
  /\ exists lines width,
       Report.table_lines (fun _ => lit "150.0%") (fun _ => lit "5,000")
         (fun _ => lit "2024-01-08 00:00") [Scenarios.old_spike]
       = Ok lines
       /\ length lines = 3%nat
       /\ Forall (fun l => length l = width) lines.
Proof.
  assert (Forall (fun s => is_Some (Spike.published_at s))
            [Scenarios.old_spike]) as H
    by (repeat constructor; by eexists).
  split; [exact H|].
  exact (table_is_rectangular (fun _ => lit "150.0%") (fun _ => lit "5,000")
           (fun _ => lit "2024-01-08 00:00") [Scenarios.old_spike] H).
Defined.


